(** * MediShield PreCheck: the encrypted eligibility evaluator and its result store

    A shallow embedding of [contracts/MediShieldPreCheck.sol] (the rule
    evaluator and the per-identity result store) and of the submission
    handler [handleSubmit] of the web front end, with the properties the
    specification states about them. *)

From Stdlib Require Import ZArith Lia String Ascii.
From stdpp Require Import base gmap sets list strings.

Open Scope Z_scope.

(** ** Basic Solidity data *)

(** [address] and [bytes32] are unsigned machine integers; both are carried
    as [Z].  [bytes] is a byte string. *)
Abbreviation address := Z (only parsing).
Abbreviation bytes32 := Z (only parsing).
Abbreviation uint256 := Z (only parsing).
Abbreviation bytes := (list Byte.byte) (only parsing).

(** ** Execution monad: state passing with revert

    A Solidity function body is a state transformer that either returns a
    value or reverts.  The state reached at the point of a revert is kept in
    the result, so that what had been written before the revert is
    observable to the theorems; [transact] below is the EVM rule that
    discards it. *)

Inductive error :=
| ProofVerificationError
| UnknownCiphertext.

Inductive outcome (A : Type) :=
| Ok (a : A)
| Revert (e : error).
Arguments Ok {A} a.
Arguments Revert {A} e.

Definition M (S A : Type) : Type := S -> outcome A * S.

Definition ret {S A} (a : A) : M S A := fun s => (Ok a, s).

Definition bind {S A B} (m : M S A) (k : A -> M S B) : M S B :=
  fun s =>
    match m s with
    | (Ok a, s') => k a s'
    | (Revert e, s') => (Revert e, s')
    end.

Definition revert {S A} (e : error) : M S A := fun s => (Revert e, s).

Declare Scope sol_scope.
Delimit Scope sol_scope with sol.
Notation "'let*' x ':=' m 'in' k" := (bind m (fun x => k))
  (at level 10, x name, m at level 100, k at level 200) : sol_scope.

(** ** The FHE library

    [@fhevm/solidity/lib/FHE.sol] is imported by the contract and is not
    part of the sources.  Its operations are modelled by their documented
    meaning: every encrypted value is a [bytes32] handle; the coprocessor
    keeps, for each handle, the plaintext it stands for (never visible to
    the contract), and an access-control list. *)

Module FHE.

Inductive FheType := Bool | Uint8.

Inductive plaintext :=
| PUint8 (n : Z)
| PBool (b : bool).

Record coprocessor := {
  ciphertexts : gmap Z plaintext;
  acl : gset (Z * Z);
  next_handle : Z
}.

(** Modelled from the spec: how the library (missing from the sources)
    issues the handle of a result.  The result of an homomorphic operator
    is a new ciphertext handle; handles are drawn from a counter, so a
    result handle differs from every handle issued before and from the
    zero handle, which stands for an uninitialised value. *)
Definition store_ciphertext (p : plaintext) (c : coprocessor) : coprocessor :=
  {| ciphertexts := <[next_handle c := p]> (ciphertexts c);
     acl := acl c;
     next_handle := next_handle c + 1 |}.

Definition fresh (p : plaintext) : M coprocessor bytes32 :=
  fun c => (Ok (next_handle c), store_ciphertext p c).

Definition read8 (h : bytes32) : M coprocessor Z :=
  fun c =>
    match ciphertexts c !! h with
    | Some (PUint8 n) => (Ok n, c)
    | _ => (Revert UnknownCiphertext, c)
    end.

Definition readBool (h : bytes32) : M coprocessor bool :=
  fun c =>
    match ciphertexts c !! h with
    | Some (PBool b) => (Ok b, c)
    | _ => (Revert UnknownCiphertext, c)
    end.

Section Verifier.
(** The input verifier (missing from the sources) is a parameter: a
    validity proof is bound to (encrypted value, submitting identity,
    target evaluator), and [verifyInput contract user handle proof type]
    tells whether it verifies. *)
Variable verifyInput : address -> address -> bytes32 -> bytes -> FheType -> bool.

(** Modelled from the spec: [FHE.fromExternal] of the library (missing
    from the sources) rejects an encrypted value whose proof does not
    verify against the calling identity and this evaluator, and otherwise
    hands the handle over unchanged. *)
Definition fromExternal (this sender : address)
    (inputHandle : bytes32) (inputProof : bytes) (ty : FheType)
  : M coprocessor bytes32 :=
  if verifyInput this sender inputHandle inputProof ty
  then ret inputHandle
  else revert ProofVerificationError.
End Verifier.

(** Modelled from the spec: [FHE.asEuint8] of the library (missing from the
    sources), the encryption of a [uint8] constant known to the evaluator. *)
Definition asEuint8 (v : Z) : M coprocessor bytes32 :=
  fresh (PUint8 (v mod 256)).

(** Modelled from the spec: the operators [FHE.ge], [FHE.le], [FHE.and],
    [FHE.or], [FHE.not] and [FHE.select] of the library (missing from the
    sources) act on ciphertexts and return a ciphertext; [select c a b] is
    [a] where [c] is true and [b] otherwise.  An operand that is not a
    ciphertext of the expected type makes the call revert. *)
Definition ge (a b : bytes32) : M coprocessor bytes32 :=
  (let* x := read8 a in let* y := read8 b in fresh (PBool (y <=? x)))%sol.

Definition le (a b : bytes32) : M coprocessor bytes32 :=
  (let* x := read8 a in let* y := read8 b in fresh (PBool (x <=? y)))%sol.

Definition and (a b : bytes32) : M coprocessor bytes32 :=
  (let* x := readBool a in let* y := readBool b in fresh (PBool (x && y)))%sol.

Definition or (a b : bytes32) : M coprocessor bytes32 :=
  (let* x := readBool a in let* y := readBool b in fresh (PBool (x || y)))%sol.

Definition not (a : bytes32) : M coprocessor bytes32 :=
  (let* x := readBool a in fresh (PBool (negb x)))%sol.

Definition select (control ifTrue ifFalse : bytes32) : M coprocessor bytes32 :=
  (let* k := readBool control in
   let* x := read8 ifTrue in
   let* y := read8 ifFalse in
   fresh (PUint8 (if k then x else y)))%sol.

(** Modelled from the spec: [FHE.allow] and [FHE.allowThis] of the library
    (missing from the sources) grant an account, or the evaluator itself,
    standing rights over one handle. *)
Definition grant (h : bytes32) (account : address) (c : coprocessor) : coprocessor :=
  {| ciphertexts := ciphertexts c;
     acl := {[ (h, account) ]} ∪ acl c;
     next_handle := next_handle c |}.

Definition allow (h : bytes32) (account : address) : M coprocessor unit :=
  fun c => (Ok tt, grant h account c).

Definition allowThis (this : address) (h : bytes32) : M coprocessor unit :=
  allow h this.

Definition isInitialized (h : bytes32) : bool := negb (h =? 0).

Definition toBytes32 (h : bytes32) : bytes32 := h.

(** Modelled from the spec: user decryption (the codec, missing from the
    sources; [userDecryptEuint] in the test suite) recovers the plaintext
    of a handle for a requester that holds rights over the handle, the
    evaluator holding them too. *)
Definition userDecrypt (c : coprocessor) (h : bytes32)
    (contract user : address) : option plaintext :=
  if bool_decide ((h, user) ∈ acl c) && bool_decide ((h, contract) ∈ acl c)
  then ciphertexts c !! h
  else None.

End FHE.

(** ** The contract *)

Module MediShieldPreCheck.

Definition CATEGORY_ELIGIBLE : Z := 1.
Definition CATEGORY_MODERATE : Z := 2.
Definition CATEGORY_NOT_ELIGIBLE : Z := 3.

(** The two storage mappings.  A Solidity mapping reads zero at a key that
    was never written. *)
Record storage := {
  _lastCategory : gmap Z Z;
  _lastEvaluatedAt : gmap Z Z
}.

Record event := EligibilityEvaluated {
  applicant : address;
  categoryHandle : bytes32;
  timestamp : uint256
}.

(** The world a transaction runs in: the coprocessor, the contract's
    storage, and the event log (newest first). *)
Record world := {
  fhe : FHE.coprocessor;
  store : storage;
  log : list event
}.

(** The transaction environment: [msg.sender], [address(this)],
    [block.timestamp]. *)
Record env := {
  msg_sender : address;
  this : address;
  block_timestamp : uint256
}.

Definition with_fhe (c : FHE.coprocessor) (w : world) : world :=
  {| fhe := c; store := store w; log := log w |}.

(** A call into the library touches the coprocessor only. *)
Definition liftFHE {A} (m : M FHE.coprocessor A) : M world A :=
  fun w => let '(r, c) := m (fhe w) in (r, with_fhe c w).

Definition read_lastCategory (a : address) : M world bytes32 :=
  fun w => (Ok (default 0 (_lastCategory (store w) !! a)), w).

Definition read_lastEvaluatedAt (a : address) : M world uint256 :=
  fun w => (Ok (default 0 (_lastEvaluatedAt (store w) !! a)), w).

Definition write_lastCategory (a : address) (h : bytes32) : M world unit :=
  fun w =>
    (Ok tt, {| fhe := fhe w;
               store := {| _lastCategory := <[a := h]> (_lastCategory (store w));
                           _lastEvaluatedAt := _lastEvaluatedAt (store w) |};
               log := log w |}).

Definition write_lastEvaluatedAt (a : address) (t : uint256) : M world unit :=
  fun w =>
    (Ok tt, {| fhe := fhe w;
               store := {| _lastCategory := _lastCategory (store w);
                           _lastEvaluatedAt := <[a := t]> (_lastEvaluatedAt (store w)) |};
               log := log w |}).

Definition emit (e : event) : M world unit :=
  fun w => (Ok tt, {| fhe := fhe w; store := store w; log := e :: log w |}).

Section Contract.
Variable verifyInput : address -> address -> bytes32 -> bytes -> FHE.FheType -> bool.
Variable e : env.

Definition checkEligibility
    (ageHandle : bytes32) (ageProof : bytes)
    (historyHandle : bytes32) (historyProof : bytes)
    (chronicHandle : bytes32) (chronicProof : bytes)
    (lifestyleHandle : bytes32) (lifestyleProof : bytes)
  : M world bytes32 :=
  (let* age := liftFHE (FHE.fromExternal verifyInput (this e) (msg_sender e) ageHandle ageProof FHE.Uint8) in
   let* hasHistory := liftFHE (FHE.fromExternal verifyInput (this e) (msg_sender e) historyHandle historyProof FHE.Bool) in
   let* hasChronic := liftFHE (FHE.fromExternal verifyInput (this e) (msg_sender e) chronicHandle chronicProof FHE.Bool) in
   let* riskyLifestyle := liftFHE (FHE.fromExternal verifyInput (this e) (msg_sender e) lifestyleHandle lifestyleProof FHE.Bool) in

   let* c18 := liftFHE (FHE.asEuint8 18) in
   let* lowerBound := liftFHE (FHE.ge age c18) in
   let* c64 := liftFHE (FHE.asEuint8 64) in
   let* upperBound := liftFHE (FHE.le age c64) in
   let* ageInRange := liftFHE (FHE.and lowerBound upperBound) in

   let* anyOfTwo := liftFHE (FHE.or hasHistory hasChronic) in
   let* riskFlags := liftFHE (FHE.or anyOfTwo riskyLifestyle) in

   let* noRisk := liftFHE (FHE.not riskFlags) in
   let* eligible := liftFHE (FHE.and ageInRange noRisk) in
   let* moderate := liftFHE (FHE.and ageInRange riskFlags) in

   let* eligibleLabel := liftFHE (FHE.asEuint8 CATEGORY_ELIGIBLE) in
   let* moderateLabel := liftFHE (FHE.asEuint8 CATEGORY_MODERATE) in
   let* notEligibleLabel := liftFHE (FHE.asEuint8 CATEGORY_NOT_ELIGIBLE) in

   let* inner := liftFHE (FHE.select moderate moderateLabel notEligibleLabel) in
   let* category := liftFHE (FHE.select eligible eligibleLabel inner) in

   let* _ := write_lastCategory (msg_sender e) category in
   let* _ := write_lastEvaluatedAt (msg_sender e) (block_timestamp e) in

   let* stored := read_lastCategory (msg_sender e) in
   let* _ := liftFHE (FHE.allow stored (msg_sender e)) in
   let* stored := read_lastCategory (msg_sender e) in
   let* _ := liftFHE (FHE.allowThis (this e) stored) in

   let* stored := read_lastCategory (msg_sender e) in
   let categoryHandle := FHE.toBytes32 stored in

   let* _ := emit (EligibilityEvaluated (msg_sender e) categoryHandle (block_timestamp e)) in
   ret categoryHandle)%sol.
End Contract.

Definition getLastEligibility (account : address) : M world (bytes32 * uint256) :=
  (let* stored := read_lastCategory account in
   if FHE.isInitialized stored
   then (let* evaluatedAt := read_lastEvaluatedAt account in
         ret (FHE.toBytes32 stored, evaluatedAt))
   else ret (0, 0))%sol.

(** The EVM's transaction rule: a reverted call leaves no trace. *)
Definition transact {A} (m : M world A) (w : world) : outcome A * world :=
  match m w with
  | (Ok a, w') => (Ok a, w')
  | (Revert err, _) => (Revert err, w)
  end.

End MediShieldPreCheck.

Import MediShieldPreCheck.

(** ** Calls, reachable states and the vocabulary of the properties *)

(** The eight arguments of one [checkEligibility] call. *)
Record submission := {
  ageHandle : bytes32;        ageProof : bytes;
  historyHandle : bytes32;    historyProof : bytes;
  chronicHandle : bytes32;    chronicProof : bytes;
  lifestyleHandle : bytes32;  lifestyleProof : bytes
}.

Definition call_checkEligibility
    (verifyInput : address -> address -> bytes32 -> bytes -> FHE.FheType -> bool)
    (e : env) (s : submission) : M world bytes32 :=
  checkEligibility verifyInput e
    (ageHandle s) (ageProof s) (historyHandle s) (historyProof s)
    (chronicHandle s) (chronicProof s) (lifestyleHandle s) (lifestyleProof s).

(** All four validity proofs verify for the caller and this contract. *)
Definition proofs_verify
    (verifyInput : address -> address -> bytes32 -> bytes -> FHE.FheType -> bool)
    (e : env) (s : submission) : bool :=
  verifyInput (this e) (msg_sender e) (ageHandle s) (ageProof s) FHE.Uint8
  && verifyInput (this e) (msg_sender e) (historyHandle s) (historyProof s) FHE.Bool
  && verifyInput (this e) (msg_sender e) (chronicHandle s) (chronicProof s) FHE.Bool
  && verifyInput (this e) (msg_sender e) (lifestyleHandle s) (lifestyleProof s) FHE.Bool.

(** The coprocessor's bookkeeping is sound: the counter is positive and
    every handle in use was issued by it. *)
Definition coprocessor_ok (c : FHE.coprocessor) : Prop :=
  0 < FHE.next_handle c
  ∧ map_Forall (λ h _, h < FHE.next_handle c) (FHE.ciphertexts c).

(** A well-formed set of encrypted inputs: the proofs verify and the four
    handles stand for an 8-bit age and three booleans. *)
Record well_formed
    (verifyInput : address -> address -> bytes32 -> bytes -> FHE.FheType -> bool)
    (e : env) (s : submission) (w : world)
    (age : Z) (hasHistory hasChronic riskyLifestyle : bool) : Prop := {
  wf_coprocessor : coprocessor_ok (fhe w);
  wf_proofs : proofs_verify verifyInput e s = true;
  wf_age : FHE.ciphertexts (fhe w) !! ageHandle s = Some (FHE.PUint8 age);
  wf_history : FHE.ciphertexts (fhe w) !! historyHandle s = Some (FHE.PBool hasHistory);
  wf_chronic : FHE.ciphertexts (fhe w) !! chronicHandle s = Some (FHE.PBool hasChronic);
  wf_lifestyle : FHE.ciphertexts (fhe w) !! lifestyleHandle s = Some (FHE.PBool riskyLifestyle)
}.

(** The predicate of the specification, on plaintexts: in range and no
    risk is Eligible, in range with a risk is Moderate, anything else is
    Not Eligible.  [checkEligibility_decrypts] below compares the circuit of
    [checkEligibility] with it. *)
Definition spec_category (age : Z) (hasHistory hasChronic riskyLifestyle : bool) : Z :=
  let ageInRange := (18 <=? age) && (age <=? 64) in
  let riskFlags := hasHistory || hasChronic || riskyLifestyle in
  let eligible := ageInRange && negb riskFlags in
  let moderate := ageInRange && riskFlags in
  if eligible then CATEGORY_ELIGIBLE
  else if moderate then CATEGORY_MODERATE
  else CATEGORY_NOT_ELIGIBLE.

(** The state of a fresh deployment. *)
Definition initial : world :=
  {| fhe := {| FHE.ciphertexts := ∅; FHE.acl := ∅; FHE.next_handle := 1 |};
     store := {| _lastCategory := ∅; _lastEvaluatedAt := ∅ |};
     log := [] |}.

(** One step of the chain, as far as this contract is concerned: somebody
    calls [checkEligibility] in a block with a nonzero timestamp (the call
    is committed or reverted as a whole), or a client registers a freshly
    encrypted input with the coprocessor. *)
Inductive step
    (verifyInput : address -> address -> bytes32 -> bytes -> FHE.FheType -> bool)
  : world -> world -> Prop :=
| step_checkEligibility e s w :
    0 < block_timestamp e ->
    step verifyInput w (transact (call_checkEligibility verifyInput e s) w).2
| step_encrypt p w :
    step verifyInput w (with_fhe (FHE.store_ciphertext p (fhe w)) w).

Definition reachable
    (verifyInput : address -> address -> bytes32 -> bytes -> FHE.FheType -> bool)
    (w : world) : Prop :=
  rtc (step verifyInput) initial w.

(** The most recent successful evaluation of an account, read off the event
    log ([None]: the account never evaluated). *)
Definition lastEvaluation (account : address) (l : list event) : option event :=
  List.find (fun ev => applicant ev =? account) l.

(** What any successful library call leaves behind: the counter never
    decreases and the bookkeeping stays sound. *)
Definition extends (c c' : FHE.coprocessor) : Prop :=
  FHE.next_handle c <= FHE.next_handle c'
  /\ (coprocessor_ok c -> coprocessor_ok c').

(** [issues m]: on success [m] returns a handle the counter had not issued
    before. *)
Definition issues (m : M FHE.coprocessor bytes32) : Prop :=
  forall c h c', m c = (Ok h, c') -> FHE.next_handle c <= h /\ extends c c'.

(** The world after a successful call that computed the handle [h] on the
    coprocessor state [c]: the rights granted, the record written and the
    event emitted. *)
Definition recorded (e : env) (h : bytes32) (c : FHE.coprocessor) (w : world) : world :=
  {| fhe := FHE.grant h (this e) (FHE.grant h (msg_sender e) c);
     store := {| _lastCategory := <[msg_sender e := h]> (_lastCategory (store w));
                 _lastEvaluatedAt :=
                   <[msg_sender e := block_timestamp e]> (_lastEvaluatedAt (store w)) |};
     log := EligibilityEvaluated (msg_sender e) h (block_timestamp e) :: log w |}.

(** The invariant of the result store: the record of every account is the
    one of its most recent [EligibilityEvaluated] event, with a nonzero
    handle and a nonzero timestamp, and an account without an event has no
    record. *)
Definition record_matches_log (w : world) : Prop :=
  forall account,
    match lastEvaluation account (log w) with
    | None =>
        _lastCategory (store w) !! account = None
        /\ _lastEvaluatedAt (store w) !! account = None
    | Some ev =>
        _lastCategory (store w) !! account = Some (categoryHandle ev)
        /\ _lastEvaluatedAt (store w) !! account = Some (timestamp ev)
        /\ 0 < categoryHandle ev
        /\ 0 < timestamp ev
    end.

Definition invariant (w : world) : Prop :=
  coprocessor_ok (fhe w) /\ record_matches_log w.

(** A verifier and a state to run the contract on: the verifier accepts any
    non-empty proof presented by account 7 to the contract at 1000; the
    coprocessor holds four encrypted inputs under the handles 1 to 4. *)
Definition demo_verify (contract user : address) (h : bytes32) (proof : bytes)
    (ty : FHE.FheType) : bool :=
  (contract =? 1000) && (user =? 7) && negb (length proof =? 0)%nat.

Definition demo_env : env :=
  {| msg_sender := 7; this := 1000; block_timestamp := 1700000000 |}.

Definition demo_world (age : Z) (hasHistory hasChronic riskyLifestyle : bool) : world :=
  with_fhe
    (FHE.store_ciphertext (FHE.PBool riskyLifestyle)
      (FHE.store_ciphertext (FHE.PBool hasChronic)
        (FHE.store_ciphertext (FHE.PBool hasHistory)
          (FHE.store_ciphertext (FHE.PUint8 age) (fhe initial)))))
    initial.

Definition demo_submission : submission :=
  {| ageHandle := 1;        ageProof := [Byte.x01];
     historyHandle := 2;    historyProof := [Byte.x02];
     chronicHandle := 3;    chronicProof := [Byte.x03];
     lifestyleHandle := 4;  lifestyleProof := [Byte.x04] |}.

(** The same submission with the last proof left empty. *)
Definition demo_bad_submission : submission :=
  {| ageHandle := 1;        ageProof := [Byte.x01];
     historyHandle := 2;    historyProof := [Byte.x02];
     chronicHandle := 3;    chronicProof := [Byte.x03];
     lifestyleHandle := 4;  lifestyleProof := [] |}.

(** The state after account 7 has evaluated once, at age 30 without risk. *)
Definition demo_after : world :=
  (call_checkEligibility demo_verify demo_env demo_submission
     (demo_world 30 false false false)).2.

(** ** Rights and ciphertexts across a call *)

(** Rights are held over issued handles only. *)
Definition acl_ok (c : FHE.coprocessor) : Prop :=
  forall h u, (h, u) ∈ FHE.acl c -> h < FHE.next_handle c.

(** [allocates m]: on success [m] stores one new ciphertext under the next
    handle, returns that handle and changes nothing else. *)
Definition allocates (m : M FHE.coprocessor bytes32) : Prop :=
  forall c h c',
    m c = (Ok h, c') ->
    h = FHE.next_handle c /\ exists p, c' = FHE.store_ciphertext p c.

(** What the circuit of a call leaves of the coprocessor it started from:
    the counter only grows, no right is granted or withdrawn, and every
    ciphertext issued before is still there. *)
Definition preserves (c c' : FHE.coprocessor) : Prop :=
  FHE.next_handle c <= FHE.next_handle c'
  /\ FHE.acl c' = FHE.acl c
  /\ forall h, h < FHE.next_handle c ->
       FHE.ciphertexts c' !! h = FHE.ciphertexts c !! h.

(** A handle that stands for one of the three category tags. *)
Definition is_category (c : FHE.coprocessor) (h : bytes32) : Prop :=
  exists cat,
    FHE.ciphertexts c !! h = Some (FHE.PUint8 cat)
    /\ (cat = CATEGORY_ELIGIBLE \/ cat = CATEGORY_MODERATE \/ cat = CATEGORY_NOT_ELIGIBLE).

(** Every evaluation in the log left a category ciphertext that its
    applicant holds rights over. *)
Definition records_sound (w : world) : Prop :=
  forall ev, In ev (log w) ->
    categoryHandle ev < FHE.next_handle (fhe w)
    /\ is_category (fhe w) (categoryHandle ev)
    /\ (categoryHandle ev, applicant ev) ∈ FHE.acl (fhe w).

(** *** Histories of calls

    A successful call as its caller saw it: who called, the handle the call
    returned, and the timestamp of its block. *)
Record evaluation := {
  caller : address;
  returned : bytes32;
  evaluatedAt : uint256
}.

(** The history after one more call of [checkEligibility]: the call is
    added when it returned, and leaves the history as it was when it
    reverted.  The history is made of what the calls returned, not of what
    the contract wrote or emitted. *)
Definition record_call
    (verifyInput : address -> address -> bytes32 -> bytes -> FHE.FheType -> bool)
    (e : env) (s : submission) (w : world) (evs : list evaluation)
  : list evaluation :=
  match (call_checkEligibility verifyInput e s w).1 with
  | Ok h =>
      {| caller := msg_sender e; returned := h; evaluatedAt := block_timestamp e |}
      :: evs
  | Revert _ => evs
  end.

(** [reached evs w]: the state [w] is reached from the initial one by the
    steps of [step], and [evs] are the successful calls on the way, newest
    first. *)
Inductive reached
    (verifyInput : address -> address -> bytes32 -> bytes -> FHE.FheType -> bool)
  : list evaluation -> world -> Prop :=
| reached_initial : reached verifyInput [] initial
| reached_checkEligibility evs w e s :
    reached verifyInput evs w ->
    0 < block_timestamp e ->
    reached verifyInput (record_call verifyInput e s w evs)
      (transact (call_checkEligibility verifyInput e s) w).2
| reached_encrypt evs w p :
    reached verifyInput evs w ->
    reached verifyInput evs (with_fhe (FHE.store_ciphertext p (fhe w)) w).

(** The most recent successful call of an account ([None]: the account
    never evaluated successfully). *)
Definition lastSuccessful (account : address) (evs : list evaluation)
  : option evaluation :=
  List.find (fun ev => caller ev =? account) evs.

(** The history of [demo_after]: one successful call, by account 7. *)
Definition demo_history : list evaluation :=
  [{| caller := 7; returned := 19; evaluatedAt := 1700000000 |}].

(** ** JavaScript strings and numbers

    The age is the one string whose characters the page inspects ([trim],
    [parseInt], [length], [startsWith], [includes]); it is modelled by its
    UTF-16 code units.  Messages and hex strings, which the page only
    compares or searches for an ASCII phrase, are [string]s. *)

Module JSString.

Definition jsstring := list Z.

(** The code units of an ASCII literal of the source. *)
Definition lit (s : string) : jsstring :=
  List.map (fun c => Z.of_nat (nat_of_ascii c)) (list_ascii_of_string s).

(** [!s]: a string is falsy when it is empty. *)
Definition is_empty (s : jsstring) : bool :=
  match s with
  | [] => true
  | _ :: _ => false
  end.

(** [s.startsWith(p)] *)
Fixpoint startsWith (p s : jsstring) : bool :=
  match p, s with
  | [], _ => true
  | _ :: _, [] => false
  | a :: p', b :: s' => (a =? b)%Z && startsWith p' s'
  end.

(** [s.includes(needle)] *)
Fixpoint includes (needle s : jsstring) : bool :=
  startsWith needle s
  || match s with
     | [] => false
     | _ :: s' => includes needle s'
     end.

(** The code units [trim] and [parseInt] strip: WhiteSpace and
    LineTerminator of ECMAScript, that is TAB, LF, VT, FF, CR, SPACE,
    U+00A0, U+1680, U+2000 to U+200A, U+2028, U+2029, U+202F, U+205F,
    U+3000 and U+FEFF.  Each is one code unit. *)
Definition is_whitespace (c : Z) : bool :=
  ((9 <=? c) && (c <=? 13))%Z
  || (c =? 32)%Z || (c =? 160)%Z || (c =? 5760)%Z
  || ((8192 <=? c) && (c <=? 8202))%Z
  || (c =? 8232)%Z || (c =? 8233)%Z || (c =? 8239)%Z || (c =? 8287)%Z
  || (c =? 12288)%Z || (c =? 65279)%Z.

Fixpoint trimStart (s : jsstring) : jsstring :=
  match s with
  | c :: s' => if is_whitespace c then trimStart s' else s
  | [] => []
  end.

(** [s.trim()] *)
Definition trim (s : jsstring) : jsstring :=
  List.rev (trimStart (List.rev (trimStart s))).

Definition digit_of (c : Z) : option Z :=
  if ((48 <=? c) && (c <=? 57))%Z then Some (c - 48)%Z else None.

Fixpoint parse_digits (acc : option Z) (s : jsstring) : option Z :=
  match s with
  | c :: s' =>
      match digit_of c with
      | Some d => parse_digits (Some (10 * default 0 acc + d)%Z) s'
      | None => acc
      end
  | [] => acc
  end.

(** [parseInt(s, 10)]; [None] is [NaN].  Leading white space is skipped,
    one sign is read, then the digits up to the first other code unit.  The
    value is kept exact; JavaScript rounds it to a double, which changes no
    comparison with 0 or 150 and no value from 1 to 150. *)
Definition parseInt (s : jsstring) : option Z :=
  match trimStart s with
  | 45%Z :: s' => Z.opp <$> parse_digits None s'
  | 43%Z :: s' => parse_digits None s'
  | s' => parse_digits None s'
  end.

End JSString.

(** ** The submission handler of the web page

    [handleSubmit] of the page component (Next.js).  The handler reads the
    form and the hooks' values captured by the render ([form]), awaits a
    series of external calls, and writes React state ([page]).  What each
    awaited call answers is given by an [oracle]; the calls actually made
    are logged in a trace, newest first. *)

Module Page.

Open Scope string_scope.

(** *** JavaScript values *)

Inductive error_code :=
| CodeNumber (n : Z)
| CodeString (s : string).

(** A thrown value: whether it is an [Error] instance, its [code] and its
    [message], either of which may be missing. *)
Record js_error := {
  is_Error : bool;
  code : option error_code;
  message : option string
}.

Inductive js_result (A : Type) :=
| Resolved (a : A)
| Rejected (err : js_error).
Arguments Resolved {A} a.
Arguments Rejected {A} err.

(** [new Error(msg)] *)
Definition Error (msg : string) : js_error :=
  {| is_Error := true; code := None; message := Some msg |}.

(** [s.includes(needle)] for a message [s] and an ASCII phrase. *)
Definition includes (needle s : string) : bool :=
  match String.index 0 needle s with
  | Some _ => true
  | None => false
  end.

(** A JavaScript number that holds an integer, or an infinity. *)
Inductive number :=
| Finite (z : Z)
| PlusInfinity
| MinusInfinity.

(** The double nearest to the integer [n >= 0], ties to the even mantissa;
    [None] when it is beyond the largest double.  Below 2^53 every integer
    is a double; above, doubles are 53-bit mantissas times a power of 2. *)
Definition nearest_double (n : Z) : option Z :=
  if (n <? 2 ^ 53)%Z then Some n
  else
    let e := (Z.log2 n - 52)%Z in
    let q := Z.shiftr n e in
    let r := (n - Z.shiftl q e)%Z in
    let half := Z.shiftl 1 (e - 1) in
    let q' := if (r <? half)%Z then q
              else if (half <? r)%Z then (q + 1)%Z
              else if Z.even q then q else (q + 1)%Z in
    let m := Z.shiftl q' e in
    if (m <? 2 ^ 1024)%Z then Some m else None.

(** [Number(x)] for an integer [x]: a bigint, or a number holding an
    integer. *)
Definition Number (x : Z) : number :=
  match nearest_double (Z.abs x) with
  | Some m => Finite (Z.sgn x * m)
  | None => if (0 <? x)%Z then PlusInfinity else MinusInfinity
  end.

(** *** React state *)

Inductive TimelineState :=
| t_idle | t_encrypt | t_submit | t_process | t_decrypt | t_complete.

Record ResultState := {
  category : number;
  handle : string;
  timestamp : option number;
  txHash : option string
}.

(** The state the handler writes. *)
Record page := {
  timelineState : TimelineState;
  errorMessage : option string;
  successMessage : option string;
  isSubmitting : bool;
  evaluationResult : option ResultState;
  ageInputError : bool
}.

Inductive FheStatus := fhe_idle | fhe_loading | fhe_ready | fhe_error.

(** The values the handler reads, as captured by the render. *)
Record form := {
  age : JSString.jsstring;
  hasHistory : option bool;
  hasChronic : option bool;
  hasLifestyleRisk : option bool;
  walletReady : bool;
  onSepolia : bool;
  isContractConfigured : bool;
  fheStatus : FheStatus
}.

Record cipher := { cipher_handle : string; cipher_proof : string }.

Record receipt := { blockTimestamp : option Z; hash : string }.

(** The answers of the outside world to the awaited calls. *)
Record oracle := {
  o_ethereum : bool;                      (* [window.ethereum] is defined *)
  o_switchChain : js_result unit;         (* [wallet_switchEthereumChain] *)
  o_addChain : js_result unit;            (* [wallet_addEthereumChain] *)
  o_fheInstance : bool;                   (* [getFheInstance()] is not null *)
  o_getSigner : js_result unit;           (* [provider.getSigner()] *)
  o_getAddress : js_result string;        (* [signer.getAddress()] *)
  o_encryptAge : js_result cipher;
  o_encryptHistory : js_result cipher;
  o_encryptChronic : js_result cipher;
  o_encryptLifestyle : js_result cipher;
  o_staticCall : js_result string;        (* [checkEligibility.staticCall] *)
  o_send : js_result unit;                (* [contract.checkEligibility]: signature and broadcast *)
  o_wait : js_result receipt;             (* [tx.wait()] *)
  o_decrypt : js_result Z;                (* [decrypt(handle, contract, signer)]: an integer *)
  o_now : Z                               (* [Math.floor(Date.now() / 1000)] *)
}.

Inductive effect :=
| E_switchChain | E_addChain | E_initializeFhe
| E_getSigner | E_getAddress
| E_encryptAge | E_encryptHistory | E_encryptChronic | E_encryptLifestyle
| E_staticCall | E_sendTransaction | E_wait | E_decrypt.

(** *** The handler monad: state, trace, exceptions and early return *)

Inductive completion (A : Type) :=
| Normal (a : A)
| Returned
| Threw (err : js_error).
Arguments Normal {A} a.
Arguments Returned {A}.
Arguments Threw {A} err.

Definition Handler (A : Type) : Type :=
  page * list effect -> completion A * (page * list effect).

Definition pure {A} (a : A) : Handler A := fun s => (Normal a, s).

Definition hbind {A B} (m : Handler A) (k : A -> Handler B) : Handler B :=
  fun s =>
    match m s with
    | (Normal a, s') => k a s'
    | (Returned, s') => (Returned, s')
    | (Threw err, s') => (Threw err, s')
    end.

Definition return_ {A} : Handler A := fun s => (Returned, s).

Definition throw {A} (err : js_error) : Handler A := fun s => (Threw err, s).

Definition set (f : page -> page) : Handler unit :=
  fun s => (Normal tt, (f s.1, s.2)).

Definition await {A} (eff : effect) (r : js_result A) : Handler A :=
  fun s =>
    (match r with Resolved a => Normal a | Rejected err => Threw err end,
     (s.1, eff :: s.2)).

Definition try_catch {A} (body : Handler A) (handler : js_error -> Handler A)
  : Handler A :=
  fun s =>
    match body s with
    | (Threw err, s') => handler err s'
    | r => r
    end.

Definition try_finally {A} (body : Handler A) (final : Handler unit) : Handler A :=
  fun s =>
    let '(r, s') := body s in
    match final s' with
    | (Normal _, s'') => (r, s'')
    | (Returned, s'') => (Returned, s'')
    | (Threw err, s'') => (Threw err, s'')
    end.

(** Calling another function of the component: a [return] inside it ends
    that function only, and the caller goes on. *)
Definition call {A} (m : Handler A) (default : A) : Handler A :=
  fun s =>
    match m s with
    | (Returned, s') => (Normal default, s')
    | r => r
    end.

Declare Scope js_scope.
Delimit Scope js_scope with js.
Notation "'let!' x ':=' m 'in' k" := (hbind m (fun x => k))
  (at level 10, x name, m at level 100, k at level 200) : js_scope.
Notation "m ';;;' k" := (hbind m (fun _ => k))
  (at level 100, k at level 200, right associativity) : js_scope.

(** *** State setters *)

Definition setTimelineState (v : TimelineState) : Handler unit :=
  set (fun p => {| timelineState := v; errorMessage := errorMessage p;
                   successMessage := successMessage p; isSubmitting := isSubmitting p;
                   evaluationResult := evaluationResult p;
                   ageInputError := ageInputError p |}).

Definition setErrorMessage (v : option string) : Handler unit :=
  set (fun p => {| timelineState := timelineState p; errorMessage := v;
                   successMessage := successMessage p; isSubmitting := isSubmitting p;
                   evaluationResult := evaluationResult p;
                   ageInputError := ageInputError p |}).

Definition setSuccessMessage (v : option string) : Handler unit :=
  set (fun p => {| timelineState := timelineState p; errorMessage := errorMessage p;
                   successMessage := v; isSubmitting := isSubmitting p;
                   evaluationResult := evaluationResult p;
                   ageInputError := ageInputError p |}).

Definition setIsSubmitting (v : bool) : Handler unit :=
  set (fun p => {| timelineState := timelineState p; errorMessage := errorMessage p;
                   successMessage := successMessage p; isSubmitting := v;
                   evaluationResult := evaluationResult p;
                   ageInputError := ageInputError p |}).

Definition setEvaluationResult (v : option ResultState) : Handler unit :=
  set (fun p => {| timelineState := timelineState p; errorMessage := errorMessage p;
                   successMessage := successMessage p; isSubmitting := isSubmitting p;
                   evaluationResult := v;
                   ageInputError := ageInputError p |}).

Definition setAgeInputError (v : bool) : Handler unit :=
  set (fun p => {| timelineState := timelineState p; errorMessage := errorMessage p;
                   successMessage := successMessage p; isSubmitting := isSubmitting p;
                   evaluationResult := evaluationResult p;
                   ageInputError := v |}).

Definition resetTimeline : Handler unit := setTimelineState t_idle.

(** *** The handlers *)

Definition code_is (c : error_code) (err : js_error) : bool :=
  match code err, c with
  | Some (CodeNumber n), CodeNumber m => (n =? m)%Z
  | Some (CodeString s), CodeString t => String.eqb s t
  | _, _ => false
  end.

(** [err?.message?.includes(needle)] *)
Definition message_includes (needle : string) (msg : option string) : bool :=
  match msg with
  | Some m => includes needle m
  | None => false
  end.

Section Handlers.
Variable f : form.
Variable o : oracle.

Definition requestNetworkSwitch : Handler unit :=
  (if negb (o_ethereum o) then
     setErrorMessage (Some "No Ethereum provider found. Please install MetaMask or a compatible wallet.") ;;;
     return_
   else
     try_catch
       (await E_switchChain (o_switchChain o))
       (fun err =>
          if code_is (CodeNumber 4902) err
          then await E_addChain (o_addChain o)
          else throw err))%js.

Definition handleSubmit_body : Handler unit :=
  (setErrorMessage None ;;;
   setSuccessMessage None ;;;
   resetTimeline ;;;
   if negb (walletReady f) then
     setErrorMessage (Some "Please connect your wallet to continue.") ;;; return_
   else if negb (onSepolia f) then
     setErrorMessage (Some "Switch to Sepolia testnet to run the secure pre-check.") ;;;
     try_catch
       (call requestNetworkSwitch tt)
       (fun _ => setErrorMessage (Some "We could not switch networks automatically. Please choose Sepolia in your wallet.")) ;;;
     return_
   else if negb (isContractConfigured f) then
     setErrorMessage (Some "Contract address not configured. Update NEXT_PUBLIC_SEPOLIA_CONTRACT before running the demo.") ;;;
     return_
   else
   let ageStr := JSString.trim (age f) in
   if JSString.is_empty ageStr then
     setErrorMessage (Some "Please enter your age.") ;;;
     setAgeInputError true ;;;
     return_
   else
   setAgeInputError false ;;;
   if JSString.includes (JSString.lit ".") ageStr then
     setErrorMessage (Some "Age must be a whole number (no decimals).") ;;; return_
   else if (1 <? List.length ageStr)%nat && JSString.startsWith (JSString.lit "0") ageStr then
     setErrorMessage (Some "Please enter a valid age.") ;;; return_
   else if JSString.includes (JSString.lit "-") ageStr then
     setErrorMessage (Some "Please enter a valid age.") ;;; return_
   else
   match JSString.parseInt ageStr with
   | None => setErrorMessage (Some "Please enter a valid age.") ;;; return_
   | Some numericAge =>
   if (numericAge <=? 0)%Z then
     setErrorMessage (Some "Age must be greater than 0.") ;;; return_
   else if (150 <? numericAge)%Z then
     setErrorMessage (Some "Age must be 150 or less.") ;;; return_
   else
   match hasHistory f, hasChronic f, hasLifestyleRisk f with
   | Some history, Some chronic, Some lifestyle =>
   (match fheStatus f with
    | fhe_idle | fhe_error =>
        fun s => (Normal tt, (s.1, E_initializeFhe :: s.2))
    | _ => pure tt
    end) ;;;
   if negb (o_fheInstance o) then
     setErrorMessage (Some "FHE instance is not available. Refresh the page or reconnect your wallet.") ;;;
     return_
   else
   setIsSubmitting true ;;;
   setTimelineState t_encrypt ;;;
   try_finally
     (try_catch
        ((if negb (o_ethereum o) then throw (Error "Ethereum provider unavailable.")
          else pure tt) ;;;
         await E_getSigner (o_getSigner o) ;;;
         let! userAddress := await E_getAddress (o_getAddress o) in
         let! ageCipher := await E_encryptAge (o_encryptAge o) in
         let! historyCipher := await E_encryptHistory (o_encryptHistory o) in
         let! chronicCipher := await E_encryptChronic (o_encryptChronic o) in
         let! lifestyleCipher := await E_encryptLifestyle (o_encryptLifestyle o) in
         setTimelineState t_submit ;;;
         let! handle :=
         try_catch
           (let! handle := await E_staticCall (o_staticCall o) in
            let! tx := await E_sendTransaction (o_send o) in
            pure handle)
           (fun signError =>
              if code_is (CodeNumber 4001) signError
                 || code_is (CodeString "ACTION_REJECTED") signError
                 || message_includes "user rejected" (message signError)
              then
                setErrorMessage (Some "Transaction signature rejected. No data was sent.") ;;;
                resetTimeline ;;;
                return_
              else throw signError) in
         setTimelineState t_process ;;;
         let! receipt := await E_wait (o_wait o) in
         setTimelineState t_decrypt ;;;
         let! decrypted := await E_decrypt (o_decrypt o) in
         let categoryNumber := Number decrypted in
         setEvaluationResult
           (Some {| category := categoryNumber;
                    handle := handle;
                    timestamp := Some (Number (default (o_now o) (blockTimestamp receipt)));
                    txHash := Some (hash receipt) |}) ;;;
         setTimelineState t_complete ;;;
         setSuccessMessage (Some "Eligibility result decrypted securely. Details below."))
        (fun err =>
           let message := if is_Error err then message err else None in
           (if message_includes "user rejected" message
            then setErrorMessage (Some "Transaction rejected. No data was sent.")
            else setErrorMessage
                   (Some (default "Something went wrong. Please try again." message))) ;;;
           resetTimeline))
     (setIsSubmitting false)
   | _, _, _ =>
       setErrorMessage (Some "Select Yes or No for each health question.") ;;; return_
   end
   end)%js.

(** One run of the handler from the page state [p]: the page state it
    leaves and the external calls it made (newest first). *)
Definition handleSubmit (p : page) : page * list effect :=
  (handleSubmit_body (p, [])).2.
End Handlers.

(** *** The workflow states of the specification *)

Inductive FailureReason :=
| UserRejected
| OtherFailure (reason : string).

Inductive WorkflowState :=
| Idle | Encrypting | Submitting | Confirming | Decrypting | Complete
| Failed (reason : FailureReason).

(** The page has no timeline entry for a failed attempt: the handler puts
    the timeline back to idle and leaves the reason in the error message.
    Read as a workflow state, an idle timeline with an error message is a
    failed attempt, and the two rejection messages are the reason
    [UserRejected]. *)
Definition workflowState (p : page) : WorkflowState :=
  match timelineState p with
  | t_idle =>
      match errorMessage p with
      | None => Idle
      | Some m =>
          if String.eqb m "Transaction signature rejected. No data was sent."
             || String.eqb m "Transaction rejected. No data was sent."
          then Failed UserRejected
          else Failed (OtherFailure m)
      end
  | t_encrypt => Encrypting
  | t_submit => Submitting
  | t_process => Confirming
  | t_decrypt => Decrypting
  | t_complete => Complete
  end.

(** A concrete run: a valid form, every call answering, and the wallet
    declining the signature the way MetaMask reports it. *)
Definition demo_form : form :=
  {| age := JSString.lit "30"; hasHistory := Some false; hasChronic := Some false;
     hasLifestyleRisk := Some false; walletReady := true; onSepolia := true;
     isContractConfigured := true; fheStatus := fhe_ready |}.

Definition demo_cipher : cipher := {| cipher_handle := "0x01"; cipher_proof := "0x02" |}.

Definition demo_rejection : js_error :=
  {| is_Error := true; code := Some (CodeNumber 4001);
     message := Some "MetaMask Tx Signature: User denied transaction signature." |}.

Definition demo_oracle : oracle :=
  {| o_ethereum := true;
     o_switchChain := Resolved tt;
     o_addChain := Resolved tt;
     o_fheInstance := true;
     o_getSigner := Resolved tt;
     o_getAddress := Resolved "0x07";
     o_encryptAge := Resolved demo_cipher;
     o_encryptHistory := Resolved demo_cipher;
     o_encryptChronic := Resolved demo_cipher;
     o_encryptLifestyle := Resolved demo_cipher;
     o_staticCall := Resolved "0x13";
     o_send := Rejected demo_rejection;
     o_wait := Resolved {| blockTimestamp := None; hash := "0xaa" |};
     o_decrypt := Resolved 1%Z;
     o_now := 1700000000%Z |}.

(** The same run with the wallet signing. *)
Definition demo_oracle_signing : oracle :=
  {| o_ethereum := true;
     o_switchChain := Resolved tt;
     o_addChain := Resolved tt;
     o_fheInstance := true;
     o_getSigner := Resolved tt;
     o_getAddress := Resolved "0x07";
     o_encryptAge := Resolved demo_cipher;
     o_encryptHistory := Resolved demo_cipher;
     o_encryptChronic := Resolved demo_cipher;
     o_encryptLifestyle := Resolved demo_cipher;
     o_staticCall := Resolved "0x13";
     o_send := Resolved tt;
     o_wait := Resolved {| blockTimestamp := None; hash := "0xaa" |};
     o_decrypt := Resolved 1%Z;
     o_now := 1700000000%Z |}.

(** A form whose age has a leading zero. *)
Definition demo_form_leading_zero : form :=
  {| age := JSString.lit " 030 "; hasHistory := Some false; hasChronic := Some false;
     hasLifestyleRisk := Some false; walletReady := true; onSepolia := true;
     isContractConfigured := true; fheStatus := fhe_ready |}.

Definition demo_page : page :=
  {| timelineState := t_complete; errorMessage := None;
     successMessage := Some "Eligibility result decrypted securely. Details below.";
     isSubmitting := false; evaluationResult := None; ageInputError := false |}.

End Page.

(** ** Handlers over other pieces of state

    The other asynchronous handlers of the front end (the FHEVM hook, the
    wallet dialog, the history loader) follow the same discipline as
    [handleSubmit] over their own state and their own external calls. *)

Module Async.

Import Page.

Section Task.
Context {S E : Type}.

Definition Task (A : Type) : Type := S * list E -> completion A * (S * list E).

Definition tpure {A} (a : A) : Task A := fun s => (Normal a, s).

Definition tbind {A B} (m : Task A) (k : A -> Task B) : Task B :=
  fun s =>
    match m s with
    | (Normal a, s') => k a s'
    | (Returned, s') => (Returned, s')
    | (Threw err, s') => (Threw err, s')
    end.

Definition treturn {A} : Task A := fun s => (Returned, s).

Definition tthrow {A} (err : js_error) : Task A := fun s => (Threw err, s).

Definition tset (f : S -> S) : Task unit := fun s => (Normal tt, (f s.1, s.2)).

(** A synchronous call of a callback that does not throw. *)
Definition tcall (eff : E) : Task unit := fun s => (Normal tt, (s.1, eff :: s.2)).

Definition tawait {A} (eff : E) (r : js_result A) : Task A :=
  fun s =>
    (match r with Resolved a => Normal a | Rejected err => Threw err end,
     (s.1, eff :: s.2)).

Definition ttry_catch {A} (body : Task A) (handler : js_error -> Task A) : Task A :=
  fun s =>
    match body s with
    | (Threw err, s') => handler err s'
    | r => r
    end.

Definition ttry_finally {A} (body : Task A) (final : Task unit) : Task A :=
  fun s =>
    let '(r, s') := body s in
    match final s' with
    | (Normal _, s'') => (r, s'')
    | (Returned, s'') => (Returned, s'')
    | (Threw err, s'') => (Threw err, s'')
    end.

(** The state a handler leaves and the calls it made, newest first. *)
Definition run {A} (m : Task A) (s : S) : S * list E := (m (s, [])).2.

(** What the caller of an [async] function gets back: the promise
    resolves unless the body threw. *)
Definition settles {A} (m : Task A) (s : S) : js_result unit :=
  match (m (s, [])).1 with
  | Threw err => Rejected err
  | _ => Resolved tt
  end.
End Task.

Declare Scope task_scope.
Delimit Scope task_scope with task.
Notation "'let!' x ':=' m 'in' k" := (tbind m (fun x => k))
  (at level 10, x name, m at level 100, k at level 200) : task_scope.
Notation "m ';;;' k" := (tbind m (fun _ => k))
  (at level 100, k at level 200, right associativity) : task_scope.

End Async.

(** ** The FHEVM hook ([useFhevm]) *)

Module FhevmHook.

Import Page Async.
Open Scope string_scope.

(** The hook's state.  An instance is an opaque object, named here by a
    number; [None] is [null]. *)
Record hook := {
  instance : option Z;
  status : FheStatus;
  error : option string
}.

Inductive hook_effect := E_initializeFheInstance.

Abbreviation HookTask := (Task (S := hook) (E := hook_effect)).

Definition setInstance (v : option Z) : HookTask unit :=
  tset
    (fun h => {| instance := v; status := status h; error := error h |}).

Definition setStatus (v : FheStatus) : HookTask unit :=
  tset
    (fun h => {| instance := instance h; status := v; error := error h |}).

Definition setError (v : option string) : HookTask unit :=
  tset
    (fun h => {| instance := instance h; status := status h; error := v |}).

(** [initialize]; [sdk] is what [initializeFheInstance()] answers. *)
Definition initialize (sdk : js_result Z) : HookTask unit :=
  (setStatus fhe_loading ;;;
   setError (Some "") ;;;
   ttry_catch
     (let! fheInstance := tawait E_initializeFheInstance sdk in
      setInstance (Some fheInstance) ;;;
      setStatus fhe_ready)
     (fun err =>
        setError (if is_Error err then message err else Some "Unknown error") ;;;
        setStatus fhe_error))%task.

Definition reset : HookTask unit :=
  (setInstance None ;;;
   setStatus fhe_idle ;;;
   setError (Some ""))%task.

Definition isInitialized (h : hook) : bool :=
  match status h with fhe_ready => true | _ => false end.

(** The state of [useState] at mount. *)
Definition mounted : hook :=
  {| instance := None; status := fhe_idle; error := Some "" |}.

(** The hook's two operations, and the state after a series of them. *)
Inductive hook_op :=
| Initialize (sdk : js_result Z)
| Reset.

Definition apply_op (h : hook) (op : hook_op) : hook :=
  match op with
  | Initialize sdk => (run (initialize sdk) h).1
  | Reset => (run reset h).1
  end.

Definition after (ops : list hook_op) : hook := fold_left apply_op ops mounted.

End FhevmHook.

(** ** The wallet dialog ([WalletModal]) *)

Module WalletModal.

Import Page Async.
Open Scope string_scope.

Inductive wallet := metamask | coinbase | walletconnect | trust | okx.

(** What the dialog looks at in [window]: the injected provider with its
    three vendor flags, and [window.okxwallet]. *)
Record provider := {
  isMetaMask : bool;
  isCoinbaseWallet : bool;
  isTrust : bool
}.

Record window := {
  ethereum : option provider;
  okxwallet : bool
}.

Record modal := {
  isConnecting : bool;
  error : option string
}.

Inductive modal_effect :=
| E_onConnect (id : wallet)
| E_onClose.

Abbreviation ModalTask := (Task (S := modal) (E := modal_effect)).

Definition setIsConnecting (v : bool) : ModalTask unit :=
  tset (fun m => {| isConnecting := v; error := error m |}).

Definition setError (v : option string) : ModalTask unit :=
  tset (fun m => {| isConnecting := isConnecting m; error := v |}).

(** [wallet.isInstalled?.() ?? true] *)
Definition installed (win : window) (w : wallet) : bool :=
  match w with
  | metamask => match ethereum win with Some p => isMetaMask p | None => false end
  | coinbase => match ethereum win with Some p => isCoinbaseWallet p | None => false end
  | walletconnect => true
  | trust => match ethereum win with Some p => isTrust p | None => false end
  | okx => okxwallet win
  end.

Section Dialog.
Variable win : window.
(** What the [onConnect] property answers. *)
Variable onConnect : js_result unit.

(** [wallet.connect()] *)
Definition connect (w : wallet) : ModalTask unit :=
  (match w with
   | metamask =>
       (if negb (bool_decide (is_Some (ethereum win)))
        then tthrow (Error "MetaMask is not installed. Please install it from metamask.io")
        else tpure tt) ;;;
       tawait (E_onConnect metamask) onConnect
   | coinbase =>
       (if negb (bool_decide (is_Some (ethereum win)))
        then tthrow (Error "Coinbase Wallet is not installed. Please install it from coinbase.com/wallet")
        else tpure tt) ;;;
       tawait (E_onConnect coinbase) onConnect
   | walletconnect =>
       tthrow (Error "WalletConnect integration coming soon")
   | trust =>
       (if negb (bool_decide (is_Some (ethereum win)))
        then tthrow (Error "Trust Wallet is not installed. Please install it from trustwallet.com")
        else tpure tt) ;;;
       tawait (E_onConnect trust) onConnect
   | okx =>
       (if negb (okxwallet win)
        then tthrow (Error "OKX Wallet is not installed. Please install it from okx.com/web3")
        else tpure tt) ;;;
       tawait (E_onConnect okx) onConnect
   end)%task.

Definition handleWalletClick (w : wallet) : ModalTask unit :=
  (setIsConnecting true ;;;
   setError None ;;;
   ttry_finally
     (ttry_catch
        (connect w ;;;
         tcall E_onClose)
        (fun err =>
           setError (if is_Error err then message err else Some "Failed to connect wallet")))
     (setIsConnecting false))%task.
End Dialog.

(** A button of the dialog answers a click unless it is disabled. *)
Definition disabled (win : window) (m : modal) (w : wallet) : bool :=
  isConnecting m || negb (installed win w).

End WalletModal.

(** ** The rest of the page component *)

Module PageView.

Import Page Async.
Open Scope string_scope.

(** *** The timeline *)

Definition TIMELINE_STEPS : list TimelineState :=
  [t_encrypt; t_submit; t_process; t_decrypt].

Definition TimelineState_eqb (a b : TimelineState) : bool :=
  match a, b with
  | t_idle, t_idle | t_encrypt, t_encrypt | t_submit, t_submit
  | t_process, t_process | t_decrypt, t_decrypt | t_complete, t_complete => true
  | _, _ => false
  end.

(** [Array.prototype.findIndex]: the first index whose element passes the
    test, -1 when none does. *)
Fixpoint findIndex {A} (test : A -> bool) (l : list A) : Z :=
  match l with
  | [] => -1
  | x :: l' =>
      if test x then 0
      else let i := findIndex test l' in if (i <? 0)%Z then -1 else (i + 1)%Z
  end.

Definition activeStepIndex (timelineState : TimelineState) : Z :=
  match timelineState with
  | t_idle => -1
  | t_complete => Z.of_nat (length TIMELINE_STEPS)
  | _ => findIndex (fun step => TimelineState_eqb step timelineState) TIMELINE_STEPS
  end.

Inductive StepStatus := s_idle | s_done | s_active | s_upcoming.

(** The status shown for the step at [index]. *)
Definition stepStatus (timelineState : TimelineState) (index : Z) : StepStatus :=
  if (activeStepIndex timelineState =? -1)%Z then s_idle
  else if (index <? activeStepIndex timelineState)%Z then s_done
  else if (index =? activeStepIndex timelineState)%Z then s_active
  else s_upcoming.

(** *** The result panel *)

Inductive Tone := success | warning | critical.

Record Content := { title : string; tone : Tone }.

(** [CATEGORY_CONTENT] (titles and tones; the longer texts are left out). *)
Definition CATEGORY_CONTENT : gmap Z Content :=
  {[ 1%Z := {| title := "Eligible"; tone := success |};
     2%Z := {| title := "Moderate"; tone := warning |};
     3%Z := {| title := "Not Eligible"; tone := critical |} ]}.

Definition categoryInfo (evaluationResult : option ResultState) : option Content :=
  match evaluationResult with
  | Some r =>
      match category r with
      | Finite n => CATEGORY_CONTENT !! n
      | _ => None
      end
  | None => None
  end.

(** The panel is rendered when [evaluationResult && categoryInfo]. *)
Definition showsResult (p : page) : bool :=
  match evaluationResult p, categoryInfo (evaluationResult p) with
  | Some _, Some _ => true
  | _, _ => false
  end.

(** *** The form *)

(** [resetResults] *)
Definition resetResults : Handler unit :=
  (setEvaluationResult None ;;;
   setSuccessMessage None ;;;
   resetTimeline)%js.

(** The [onChange] of the age field; [setAge(newAge)] makes [newAge] the
    age of the next render. *)
Definition ageOnChange (newAge : JSString.jsstring) : Handler unit :=
  (setAgeInputError false ;;;
   resetResults ;;;
   if negb (JSString.is_empty newAge)
      && negb (JSString.includes (JSString.lit ".") newAge)
      && negb (JSString.includes (JSString.lit "-") newAge)
      && negb ((1 <? List.length newAge)%nat
               && JSString.startsWith (JSString.lit "0") newAge)
   then
     match JSString.parseInt newAge with
     | Some numAge =>
         if (0 <? numAge)%Z && (numAge <=? 150)%Z
         then setErrorMessage None
         else pure tt
     | None => pure tt
     end
   else pure tt)%js.

(** The [disabled] attribute of the submit button. *)
Definition submitDisabled (f : form) (p : page) (isDecrypting : bool) : bool :=
  isSubmitting p
  || isDecrypting
  || negb (walletReady f)
  || negb (onSepolia f)
  || negb (isContractConfigured f)
  || negb (match fheStatus f with fhe_ready => true | _ => false end).

(** *** Connecting a wallet *)

Inductive connect_effect := E_connectWallet.

(** [handleWalletConnect]; [connectWallet] is what the wallet hook's
    [connect()] answers. *)
Definition handleWalletConnect (connectWallet : js_result unit)
  : Task (S := page) (E := connect_effect) unit :=
  ttry_catch
    (tawait E_connectWallet connectWallet)
    (fun err =>
       tset (fun p => (run (E := effect) (setErrorMessage
                             (if is_Error err then message err
                              else Some "Unable to connect wallet.")) p).1)).

(** *** Loading the last result *)

Definition ZERO_ADDRESS : string := "0x0000000000000000000000000000000000000000".

(** [ethers.ZeroHash] *)
Definition ZeroHash : string :=
  "0x0000000000000000000000000000000000000000000000000000000000000000".

(** The state [handleLoadHistory] writes: the page state of [handleSubmit],
    the four inputs of the form, and its own flag. *)
Record view := {
  v_page : page;
  v_age : JSString.jsstring;
  v_hasHistory : option bool;
  v_hasChronic : option bool;
  v_hasLifestyleRisk : option bool;
  isFetchingHistory : bool
}.

Inductive history_effect :=
| H_getSigner
| H_getLastEligibility
| H_decrypt.

Abbreviation HistoryTask := (Task (S := view) (E := history_effect)).

(** A setter of the page state, run inside the larger state (setters make
    no external call). *)
Definition on_page (m : Handler unit) : HistoryTask unit :=
  tset (fun v => {| v_page := (run (E := effect) m (v_page v)).1;
                    v_age := v_age v;
                    v_hasHistory := v_hasHistory v;
                    v_hasChronic := v_hasChronic v;
                    v_hasLifestyleRisk := v_hasLifestyleRisk v;
                    isFetchingHistory := isFetchingHistory v |}).

Definition setIsFetchingHistory (b : bool) : HistoryTask unit :=
  tset (fun v => {| v_page := v_page v;
                    v_age := v_age v;
                    v_hasHistory := v_hasHistory v;
                    v_hasChronic := v_hasChronic v;
                    v_hasLifestyleRisk := v_hasLifestyleRisk v;
                    isFetchingHistory := b |}).

(** [setAge(''); setHasHistory(null); setHasChronic(null);
    setHasLifestyleRisk(null)] *)
Definition clearInputs : HistoryTask unit :=
  tset (fun v => {| v_page := v_page v;
                    v_age := [];
                    v_hasHistory := None;
                    v_hasChronic := None;
                    v_hasLifestyleRisk := None;
                    isFetchingHistory := isFetchingHistory v |}).

Section History.
Variable f : form.
Variable o : oracle.
(** What [contract.getLastEligibility(address)] answers: the handle as a
    hex string and the timestamp. *)
Variable lastEligibility : js_result (string * Z).

Definition handleLoadHistory : HistoryTask unit :=
  (if negb (walletReady f) || negb (onSepolia f) || negb (isContractConfigured f)
   then treturn
   else
   setIsFetchingHistory true ;;;
   on_page (setErrorMessage None) ;;;
   on_page (setSuccessMessage None) ;;;
   on_page resetTimeline ;;;
   on_page (setEvaluationResult None) ;;;
   clearInputs ;;;
   ttry_finally
     (ttry_catch
        ((if negb (o_ethereum o) then tthrow (Error "Ethereum provider unavailable.")
          else tpure tt) ;;;
         tawait H_getSigner (o_getSigner o) ;;;
         let! answer := tawait H_getLastEligibility lastEligibility in
         let handle := answer.1 in
         let timestamp := answer.2 in
         if String.eqb handle ZERO_ADDRESS || String.eqb handle ZeroHash then
           on_page (setErrorMessage (Some "No encrypted result stored for this wallet yet.")) ;;;
           treturn
         else
         let! decrypted := tawait H_decrypt (o_decrypt o) in
         let categoryNumber := Number decrypted in
         on_page (setEvaluationResult
                    (Some {| category := categoryNumber;
                             handle := handle;
                             timestamp := Some (Number timestamp);
                             txHash := None |})) ;;;
         on_page (setTimelineState t_complete) ;;;
         on_page (setSuccessMessage (Some "Loaded your most recent encrypted decision from chain.")))
        (fun err =>
           on_page (setErrorMessage
                      (if is_Error err then message err
                       else Some "Unable to load previous result."))))
     (setIsFetchingHistory false))%task.
End History.

(** *** Values for concrete runs *)

Definition demo_view : view :=
  {| v_page := demo_page; v_age := JSString.lit "30"; v_hasHistory := Some false;
     v_hasChronic := Some true; v_hasLifestyleRisk := None;
     isFetchingHistory := false |}.

End PageView.

(** ** Vocabulary for the properties of the handlers *)

Module HandlerSpec.

Import Page.
Open Scope string_scope.

(** The calls of a submission, in the order the handler makes them. *)
Definition submit_calls : list effect :=
  [E_getSigner; E_getAddress;
   E_encryptAge; E_encryptHistory; E_encryptChronic; E_encryptLifestyle;
   E_staticCall; E_sendTransaction; E_wait; E_decrypt].

(** The two calls of a network switch, in order. *)
Definition switch_calls : list effect := [E_switchChain; E_addChain].

(** The form passes every check [handleSubmit] makes before it starts an
    attempt: wallet, network and contract are there; the trimmed age is not
    empty, contains no "." and no "-", does not start with "0" unless it is
    one character long, and [parseInt] reads a number from 1 to 150 off its
    start; the three questions are answered.  What follows the digits is
    not looked at, and a leading "+" is read as a sign. *)
Record passes_validation (f : form) : Prop := {
  pv_wallet : walletReady f = true;
  pv_network : onSepolia f = true;
  pv_contract : isContractConfigured f = true;
  pv_not_empty : JSString.trim (age f) <> [];
  pv_no_decimal : JSString.includes (JSString.lit ".") (JSString.trim (age f)) = false;
  pv_no_leading_zero :
    (1 <? List.length (JSString.trim (age f)))%nat
    && JSString.startsWith (JSString.lit "0") (JSString.trim (age f)) = false;
  pv_no_minus : JSString.includes (JSString.lit "-") (JSString.trim (age f)) = false;
  pv_range : exists n, JSString.parseInt (JSString.trim (age f)) = Some n /\ (1 <= n <= 150)%Z;
  pv_history : is_Some (hasHistory f);
  pv_chronic : is_Some (hasChronic f);
  pv_lifestyle : is_Some (hasLifestyleRisk f)
}.

(** The call [handleSubmit] makes first when the hook's status is idle or
    error: [initializeFhe()]. *)
Definition init_calls (f : form) : list effect :=
  match fheStatus f with
  | fhe_idle | fhe_error => [E_initializeFhe]
  | _ => []
  end.

Definition resolved {A} (r : js_result A) : Prop := exists a, r = Resolved a.

(** Every awaited call of a submission answers. *)
Record all_resolve (o : oracle) : Prop := {
  ar_getSigner : resolved (o_getSigner o);
  ar_getAddress : resolved (o_getAddress o);
  ar_encryptAge : resolved (o_encryptAge o);
  ar_encryptHistory : resolved (o_encryptHistory o);
  ar_encryptChronic : resolved (o_encryptChronic o);
  ar_encryptLifestyle : resolved (o_encryptLifestyle o);
  ar_staticCall : resolved (o_staticCall o);
  ar_send : resolved (o_send o);
  ar_wait : resolved (o_wait o);
  ar_decrypt : resolved (o_decrypt o)
}.

(** A stand-in for the hex rendering of a [bytes32] by the contract
    bindings: zero is the zero hash, anything else another string. *)
Definition demo_encode (z : Z) : string :=
  if (z =? 0)%Z then PageView.ZeroHash else "0x13".

(** The error an awaited call rejects with, if it does. *)
Definition rejection {A} (r : js_result A) : option js_error :=
  match r with
  | Rejected err => Some err
  | Resolved _ => None
  end.

(** The awaited calls of a submission in order, each with its rejection. *)
Definition rejections (o : oracle) : list (effect * option js_error) :=
  [(E_getSigner, rejection (o_getSigner o));
   (E_getAddress, rejection (o_getAddress o));
   (E_encryptAge, rejection (o_encryptAge o));
   (E_encryptHistory, rejection (o_encryptHistory o));
   (E_encryptChronic, rejection (o_encryptChronic o));
   (E_encryptLifestyle, rejection (o_encryptLifestyle o));
   (E_staticCall, rejection (o_staticCall o));
   (E_sendTransaction, rejection (o_send o));
   (E_wait, rejection (o_wait o));
   (E_decrypt, rejection (o_decrypt o))].

(** The first call of the list that rejects. *)
Fixpoint first_rejection (l : list (effect * option js_error))
  : option (effect * js_error) :=
  match l with
  | [] => None
  | (eff, Some err) :: _ => Some (eff, err)
  | (_, None) :: l' => first_rejection l'
  end.

(** The static call and the transaction are the two calls made under the
    inner [try]. *)
Definition in_signing_step (eff : effect) : bool :=
  match eff with
  | E_staticCall | E_sendTransaction => true
  | _ => false
  end.

(** The message the outer [catch] computes for a thrown value. *)
Definition thrown_message (err : js_error) : option string :=
  if is_Error err then message err else None.

End HandlerSpec.

(** * Properties *)

(** ** The execution monad *)

Lemma bind_inv {S A B} (m : M S A) (k : A -> M S B) s b s'' :
  bind m k s = (Ok b, s'') ->
  exists a s', m s = (Ok a, s') /\ k a s' = (Ok b, s'').
Proof.
  unfold bind. destruct (m s) as [[a|err] s'] eqn:E; intros H.
  - eauto.
  - discriminate.
Qed.

(** ** The coprocessor *)

Lemma next_handle_store p c :
  FHE.next_handle (FHE.store_ciphertext p c) = FHE.next_handle c + 1.
Proof. reflexivity. Qed.

Lemma lookup_store_eq p c h :
  h = FHE.next_handle c ->
  FHE.ciphertexts (FHE.store_ciphertext p c) !! h = Some p.
Proof. intros ->. apply lookup_insert_eq. Qed.

Lemma lookup_store_lt p c h :
  h < FHE.next_handle c ->
  FHE.ciphertexts (FHE.store_ciphertext p c) !! h = FHE.ciphertexts c !! h.
Proof. intros H. cbn. apply lookup_insert_ne. lia. Qed.

Lemma coprocessor_ok_initial : coprocessor_ok (fhe initial).
Proof. split; [cbn; lia | apply map_Forall_empty]. Qed.

Lemma coprocessor_ok_store p c :
  coprocessor_ok c -> coprocessor_ok (FHE.store_ciphertext p c).
Proof.
  intros [Hpos Hall]. split; cbn; [lia|].
  apply map_Forall_insert_2; [lia|].
  eapply map_Forall_impl; [exact Hall|]. cbn. intros; lia.
Qed.

Lemma coprocessor_ok_grant h a c :
  coprocessor_ok c -> coprocessor_ok (FHE.grant h a c).
Proof. intros H. exact H. Qed.

Lemma coprocessor_ok_lookup c h p :
  coprocessor_ok c -> FHE.ciphertexts c !! h = Some p -> h < FHE.next_handle c.
Proof. intros [_ Hall] Hh. exact (Hall h p Hh). Qed.


Lemma extends_refl c : extends c c.
Proof. split; [lia | tauto]. Qed.

Lemma extends_trans c1 c2 c3 : extends c1 c2 -> extends c2 c3 -> extends c1 c3.
Proof. intros [H1 K1] [H2 K2]. split; [lia | tauto]. Qed.


Lemma issues_fresh p : issues (FHE.fresh p).
Proof.
  intros c h c' [= <- <-]. split; [lia|].
  split; [cbn; lia | apply coprocessor_ok_store].
Qed.

Lemma read8_inv h c n c' :
  FHE.read8 h c = (Ok n, c') -> c' = c /\ FHE.ciphertexts c !! h = Some (FHE.PUint8 n).
Proof.
  unfold FHE.read8. destruct (FHE.ciphertexts c !! h) as [[m|b]|]; intros [=]; subst; auto.
Qed.

Lemma readBool_inv h c b c' :
  FHE.readBool h c = (Ok b, c') -> c' = c /\ FHE.ciphertexts c !! h = Some (FHE.PBool b).
Proof.
  unfold FHE.readBool. destruct (FHE.ciphertexts c !! h) as [[m|b0]|]; intros [=]; subst; auto.
Qed.

Ltac invert_reads :=
  repeat match goal with
  | H : bind _ _ _ = (Ok _, _) |- _ =>
      apply bind_inv in H; destruct H as (? & ? & ? & H)
  | H : FHE.read8 _ _ = (Ok _, _) |- _ => apply read8_inv in H; destruct H as [-> H]
  | H : FHE.readBool _ _ = (Ok _, _) |- _ => apply readBool_inv in H; destruct H as [-> H]
  end.

Lemma issues_asEuint8 v : issues (FHE.asEuint8 v).
Proof. apply issues_fresh. Qed.

Lemma issues_ge a b : issues (FHE.ge a b).
Proof. intros c h c' H. unfold FHE.ge in H. invert_reads. eapply issues_fresh, H. Qed.

Lemma issues_le a b : issues (FHE.le a b).
Proof. intros c h c' H. unfold FHE.le in H. invert_reads. eapply issues_fresh, H. Qed.

Lemma issues_and a b : issues (FHE.and a b).
Proof. intros c h c' H. unfold FHE.and in H. invert_reads. eapply issues_fresh, H. Qed.

Lemma issues_or a b : issues (FHE.or a b).
Proof. intros c h c' H. unfold FHE.or in H. invert_reads. eapply issues_fresh, H. Qed.

Lemma issues_not a : issues (FHE.not a).
Proof. intros c h c' H. unfold FHE.not in H. invert_reads. eapply issues_fresh, H. Qed.

Lemma issues_select k a b : issues (FHE.select k a b).
Proof. intros c h c' H. unfold FHE.select in H. invert_reads. eapply issues_fresh, H. Qed.

Lemma fromExternal_inv verifyInput this sender h proof ty c r c' :
  FHE.fromExternal verifyInput this sender h proof ty c = (Ok r, c') ->
  verifyInput this sender h proof ty = true /\ r = h /\ c' = c.
Proof.
  unfold FHE.fromExternal. destruct (verifyInput this sender h proof ty); intros [=]; auto.
Qed.

(** The operators on known operands. *)

Lemma ge_run a b x y c :
  FHE.ciphertexts c !! a = Some (FHE.PUint8 x) ->
  FHE.ciphertexts c !! b = Some (FHE.PUint8 y) ->
  FHE.ge a b c = FHE.fresh (FHE.PBool (y <=? x)) c.
Proof. intros Ha Hb. unfold FHE.ge, bind, FHE.read8. now rewrite Ha, Hb. Qed.

Lemma le_run a b x y c :
  FHE.ciphertexts c !! a = Some (FHE.PUint8 x) ->
  FHE.ciphertexts c !! b = Some (FHE.PUint8 y) ->
  FHE.le a b c = FHE.fresh (FHE.PBool (x <=? y)) c.
Proof. intros Ha Hb. unfold FHE.le, bind, FHE.read8. now rewrite Ha, Hb. Qed.

Lemma and_run a b x y c :
  FHE.ciphertexts c !! a = Some (FHE.PBool x) ->
  FHE.ciphertexts c !! b = Some (FHE.PBool y) ->
  FHE.and a b c = FHE.fresh (FHE.PBool (x && y)) c.
Proof. intros Ha Hb. unfold FHE.and, bind, FHE.readBool. now rewrite Ha, Hb. Qed.

Lemma or_run a b x y c :
  FHE.ciphertexts c !! a = Some (FHE.PBool x) ->
  FHE.ciphertexts c !! b = Some (FHE.PBool y) ->
  FHE.or a b c = FHE.fresh (FHE.PBool (x || y)) c.
Proof. intros Ha Hb. unfold FHE.or, bind, FHE.readBool. now rewrite Ha, Hb. Qed.

Lemma not_run a x c :
  FHE.ciphertexts c !! a = Some (FHE.PBool x) ->
  FHE.not a c = FHE.fresh (FHE.PBool (negb x)) c.
Proof. intros Ha. unfold FHE.not, bind, FHE.readBool. now rewrite Ha. Qed.

Lemma select_run k a b kv x y c :
  FHE.ciphertexts c !! k = Some (FHE.PBool kv) ->
  FHE.ciphertexts c !! a = Some (FHE.PUint8 x) ->
  FHE.ciphertexts c !! b = Some (FHE.PUint8 y) ->
  FHE.select k a b c = FHE.fresh (FHE.PUint8 (if kv then x else y)) c.
Proof.
  intros Hk Ha Hb. unfold FHE.select, bind, FHE.readBool, FHE.read8.
  now rewrite Hk, Ha, Hb.
Qed.

Lemma asEuint8_run v c : FHE.asEuint8 v c = FHE.fresh (FHE.PUint8 (v mod 256)) c.
Proof. reflexivity. Qed.

(** ** Library calls made by the contract *)

Lemma liftFHE_inv {A} (m : M FHE.coprocessor A) (w : world) a w' :
  liftFHE m w = (Ok a, w') ->
  exists c, m (fhe w) = (Ok a, c) /\ w' = with_fhe c w.
Proof.
  unfold liftFHE. destruct (m (fhe w)) as [r c]. intros [= -> <-]. eauto.
Qed.

Lemma liftFHE_fresh (m : M FHE.coprocessor bytes32) p {B} (k : bytes32 -> M world B) c w :
  m c = FHE.fresh p c ->
  bind (liftFHE m) k (with_fhe c w)
  = k (FHE.next_handle c) (with_fhe (FHE.store_ciphertext p c) w).
Proof. intros H. unfold bind, liftFHE. cbn [fhe with_fhe]. rewrite H. reflexivity. Qed.

Lemma liftFHE_fromExternal verifyInput this sender h proof ty {B}
    (k : bytes32 -> M world B) c w :
  verifyInput this sender h proof ty = true ->
  bind (liftFHE (FHE.fromExternal verifyInput this sender h proof ty)) k (with_fhe c w)
  = k h (with_fhe c w).
Proof. intros H. unfold bind, liftFHE, FHE.fromExternal. rewrite H. reflexivity. Qed.

Lemma liftFHE_fromExternal_fails verifyInput this sender h proof ty {B}
    (k : bytes32 -> M world B) c w :
  verifyInput this sender h proof ty = false ->
  bind (liftFHE (FHE.fromExternal verifyInput this sender h proof ty)) k (with_fhe c w)
  = (Revert ProofVerificationError, with_fhe c w).
Proof. intros H. unfold bind, liftFHE, FHE.fromExternal. rewrite H. reflexivity. Qed.

Lemma with_fhe_same w : with_fhe (fhe w) w = w.
Proof. now destruct w. Qed.


(** The part of [checkEligibility] after the circuit (lines 64 to 72). *)
Lemma record_tail (e : env) (category : bytes32) (w : world) :
  (let* _ := write_lastCategory (msg_sender e) category in
   let* _ := write_lastEvaluatedAt (msg_sender e) (block_timestamp e) in
   let* stored := read_lastCategory (msg_sender e) in
   let* _ := liftFHE (FHE.allow stored (msg_sender e)) in
   let* stored := read_lastCategory (msg_sender e) in
   let* _ := liftFHE (FHE.allowThis (this e) stored) in
   let* stored := read_lastCategory (msg_sender e) in
   let categoryHandle := FHE.toBytes32 stored in
   let* _ := emit (EligibilityEvaluated (msg_sender e) categoryHandle (block_timestamp e)) in
   ret categoryHandle)%sol w
  = (Ok category, recorded e category (fhe w) w).
Proof.
  unfold bind, write_lastCategory, write_lastEvaluatedAt, read_lastCategory,
    liftFHE, FHE.allow, FHE.allowThis, emit, ret, with_fhe, FHE.toBytes32, recorded.
  cbn. rewrite !lookup_insert_eq. cbn. reflexivity.
Qed.

(** ** [checkEligibility], on success *)

Ltac call_inv H :=
  let Hs := fresh "Hcall" in
  apply bind_inv in H; destruct H as (? & ? & Hs & H);
  apply liftFHE_inv in Hs; destruct Hs as (? & Hs & ->);
  cbn [fhe with_fhe] in Hs.

Ltac chain_extends :=
  repeat match goal with
  | H1 : extends ?a ?b, H2 : extends ?b ?c |- _ =>
      pose proof (extends_trans _ _ _ H1 H2); clear H1 H2
  end.

Lemma checkEligibility_inv verifyInput e s w h w' :
  call_checkEligibility verifyInput e s w = (Ok h, w') ->
  proofs_verify verifyInput e s = true
  /\ exists c, extends (fhe w) c /\ FHE.next_handle (fhe w) <= h /\ w' = recorded e h c w.
Proof.
  unfold call_checkEligibility, checkEligibility. intros H.
  do 4 (call_inv H).
  repeat match goal with
  | K : FHE.fromExternal _ _ _ _ _ _ _ = _ |- _ =>
      apply fromExternal_inv in K; destruct K as (? & -> & ->)
  end.
  split. { unfold proofs_verify. repeat (apply andb_true_intro; split); assumption. }
  do 15 (call_inv H).
  rewrite record_tail in H. injection H as <- <-.
  repeat match goal with
  | K : FHE.asEuint8 _ _ = _ |- _ => apply issues_asEuint8 in K; destruct K
  | K : FHE.ge _ _ _ = _ |- _ => apply issues_ge in K; destruct K
  | K : FHE.le _ _ _ = _ |- _ => apply issues_le in K; destruct K
  | K : FHE.and _ _ _ = _ |- _ => apply issues_and in K; destruct K
  | K : FHE.or _ _ _ = _ |- _ => apply issues_or in K; destruct K
  | K : FHE.not _ _ = _ |- _ => apply issues_not in K; destruct K
  | K : FHE.select _ _ _ _ = _ |- _ => apply issues_select in K; destruct K
  end.
  eexists. split; [|split; [|reflexivity]].
  - chain_extends. eassumption.
  - repeat match goal with K : extends _ _ |- _ => destruct K as [K _] end. lia.
Qed.

(** ** [checkEligibility], on well-formed inputs *)

Ltac lookup :=
  repeat first
    [ rewrite lookup_store_eq by (rewrite ?next_handle_store; lia)
    | rewrite lookup_store_lt by (rewrite ?next_handle_store; lia) ];
  first [ eassumption | reflexivity ].

Ltac run_op lem :=
  erewrite liftFHE_fresh by (eapply lem; lookup);
  rewrite ?next_handle_store.

Lemma proofs_verify_true verifyInput e s :
  proofs_verify verifyInput e s = true ->
  verifyInput (this e) (msg_sender e) (ageHandle s) (ageProof s) FHE.Uint8 = true
  /\ verifyInput (this e) (msg_sender e) (historyHandle s) (historyProof s) FHE.Bool = true
  /\ verifyInput (this e) (msg_sender e) (chronicHandle s) (chronicProof s) FHE.Bool = true
  /\ verifyInput (this e) (msg_sender e) (lifestyleHandle s) (lifestyleProof s) FHE.Bool = true.
Proof.
  unfold proofs_verify. intros H.
  apply andb_prop in H as [H H4]. apply andb_prop in H as [H H3].
  apply andb_prop in H as [H1 H2]. auto.
Qed.

Lemma checkEligibility_run_at verifyInput e s c w age hasHistory hasChronic riskyLifestyle :
  well_formed verifyInput e s (with_fhe c w) age hasHistory hasChronic riskyLifestyle ->
  exists h c',
    call_checkEligibility verifyInput e s (with_fhe c w)
    = (Ok h, recorded e h c' (with_fhe c w))
    /\ FHE.ciphertexts c' !! h
       = Some (FHE.PUint8 (spec_category age hasHistory hasChronic riskyLifestyle))
    /\ 0 < h.
Proof.
  intros [Hok Hproofs Hage Hhist Hchr Hlife]. cbn [fhe with_fhe] in *.
  apply proofs_verify_true in Hproofs as (P1 & P2 & P3 & P4).
  pose proof (coprocessor_ok_lookup _ _ _ Hok Hage).
  pose proof (coprocessor_ok_lookup _ _ _ Hok Hhist).
  pose proof (coprocessor_ok_lookup _ _ _ Hok Hchr).
  pose proof (coprocessor_ok_lookup _ _ _ Hok Hlife).
  destruct Hok as [Hpos _].
  unfold call_checkEligibility, checkEligibility.
  rewrite (liftFHE_fromExternal _ _ _ _ _ _ _ _ _ P1).
  rewrite (liftFHE_fromExternal _ _ _ _ _ _ _ _ _ P2).
  rewrite (liftFHE_fromExternal _ _ _ _ _ _ _ _ _ P3).
  rewrite (liftFHE_fromExternal _ _ _ _ _ _ _ _ _ P4).
  run_op asEuint8_run. run_op ge_run.
  run_op asEuint8_run. run_op le_run.
  run_op and_run.
  run_op or_run. run_op or_run.
  run_op not_run. run_op and_run. run_op and_run.
  run_op asEuint8_run. run_op asEuint8_run. run_op asEuint8_run.
  run_op select_run. run_op select_run.
  rewrite record_tail.
  eexists _, _. split; [reflexivity|]. split.
  - cbn [fhe with_fhe]. lookup.
  - lia.
Qed.

Lemma checkEligibility_run verifyInput e s w age hasHistory hasChronic riskyLifestyle :
  well_formed verifyInput e s w age hasHistory hasChronic riskyLifestyle ->
  exists h c,
    call_checkEligibility verifyInput e s w = (Ok h, recorded e h c w)
    /\ FHE.ciphertexts c !! h
       = Some (FHE.PUint8 (spec_category age hasHistory hasChronic riskyLifestyle))
    /\ 0 < h.
Proof.
  intros H. rewrite <- (with_fhe_same w) in H |- *.
  apply checkEligibility_run_at in H. rewrite with_fhe_same in H. exact H.
Qed.

(** ** Reading the record back *)

Lemma userDecrypt_recorded e h c w :
  FHE.userDecrypt (fhe (recorded e h c w)) h (this e) (msg_sender e)
  = FHE.ciphertexts c !! h.
Proof.
  unfold FHE.userDecrypt, recorded, FHE.grant. cbn.
  rewrite !bool_decide_eq_true_2 by set_solver. reflexivity.
Qed.

Lemma getLastEligibility_eq account w :
  getLastEligibility account w
  = (Ok (if FHE.isInitialized (default 0 (_lastCategory (store w) !! account))
         then (default 0 (_lastCategory (store w) !! account),
               default 0 (_lastEvaluatedAt (store w) !! account))
         else (0, 0)), w).
Proof.
  unfold getLastEligibility, bind, read_lastCategory, read_lastEvaluatedAt, ret,
    FHE.toBytes32.
  now destruct (FHE.isInitialized _).
Qed.

Lemma isInitialized_pos h : 0 < h -> FHE.isInitialized h = true.
Proof. intros H. unfold FHE.isInitialized. apply negb_true_iff, Z.eqb_neq. lia. Qed.

Lemma getLastEligibility_recorded e h c w :
  0 < h ->
  getLastEligibility (msg_sender e) (recorded e h c w)
  = (Ok (h, block_timestamp e), recorded e h c w).
Proof.
  intros Hh. rewrite getLastEligibility_eq. cbn [recorded store _lastCategory _lastEvaluatedAt].
  rewrite !lookup_insert_eq. cbn [default]. now rewrite isInitialized_pos.
Qed.

Lemma getLastEligibility_recorded_other e h c w account :
  account <> msg_sender e ->
  (getLastEligibility account (recorded e h c w)).1 = (getLastEligibility account w).1.
Proof.
  intros Hne. rewrite !getLastEligibility_eq.
  cbn [recorded store _lastCategory _lastEvaluatedAt fst].
  rewrite !lookup_insert_ne by congruence. reflexivity.
Qed.

Lemma demo_well_formed age hasHistory hasChronic riskyLifestyle :
  well_formed demo_verify demo_env demo_submission
    (demo_world age hasHistory hasChronic riskyLifestyle)
    age hasHistory hasChronic riskyLifestyle.
Proof.
  split; try reflexivity.
  unfold demo_world. cbn [fhe with_fhe].
  repeat apply coprocessor_ok_store. apply coprocessor_ok_initial.
Qed.

(** ** The rule evaluator *)

Lemma spec_category_eligible age :
  18 <= age <= 64 -> spec_category age false false false = CATEGORY_ELIGIBLE.
Proof.
  intros H. unfold spec_category.
  replace (18 <=? age) with true by (symmetry; apply Z.leb_le; lia).
  replace (age <=? 64) with true by (symmetry; apply Z.leb_le; lia).
  reflexivity.
Qed.

Lemma spec_category_moderate age hasHistory hasChronic riskyLifestyle :
  18 <= age <= 64 -> hasHistory || hasChronic || riskyLifestyle = true ->
  spec_category age hasHistory hasChronic riskyLifestyle = CATEGORY_MODERATE.
Proof.
  intros H Hrisk. unfold spec_category. rewrite Hrisk.
  replace (18 <=? age) with true by (symmetry; apply Z.leb_le; lia).
  replace (age <=? 64) with true by (symmetry; apply Z.leb_le; lia).
  reflexivity.
Qed.

Lemma spec_category_not_eligible age hasHistory hasChronic riskyLifestyle :
  age < 18 \/ age > 64 ->
  spec_category age hasHistory hasChronic riskyLifestyle = CATEGORY_NOT_ELIGIBLE.
Proof.
  intros H. unfold spec_category.
  assert ((18 <=? age) && (age <=? 64) = false) as ->; [|reflexivity].
  apply andb_false_iff. rewrite !Z.leb_gt. lia.
Qed.

Lemma spec_category_range age hasHistory hasChronic riskyLifestyle :
  let cat := spec_category age hasHistory hasChronic riskyLifestyle in
  cat = CATEGORY_ELIGIBLE \/ cat = CATEGORY_MODERATE \/ cat = CATEGORY_NOT_ELIGIBLE.
Proof.
  unfold spec_category. cbn zeta.
  destruct ((18 <=? age) && (age <=? 64)), (hasHistory || hasChronic || riskyLifestyle);
    cbn; auto.
Qed.

(** The two conditions the nested [select] looks at never hold together. *)
Lemma eligible_moderate_exclusive (ageInRange riskFlags : bool) :
  (ageInRange && negb riskFlags) && (ageInRange && riskFlags) = false.
Proof. now destruct ageInRange, riskFlags. Qed.

Lemma checkEligibility_decrypts verifyInput e s w age hasHistory hasChronic riskyLifestyle :
  well_formed verifyInput e s w age hasHistory hasChronic riskyLifestyle ->
  exists h w',
    call_checkEligibility verifyInput e s w = (Ok h, w')
    /\ FHE.userDecrypt (fhe w') h (this e) (msg_sender e)
       = Some (FHE.PUint8 (spec_category age hasHistory hasChronic riskyLifestyle)).
Proof.
  intros H. apply checkEligibility_run in H as (h & c & Hrun & Hc & _).
  exists h, (recorded e h c w). split; [exact Hrun|].
  now rewrite userDecrypt_recorded.
Qed.

(** C1. For every age between 18 and 64 with the three risk flags false,
    [checkEligibility] returns a handle that the caller decrypts to
    Eligible (1). *)
Theorem eligible_in_band_without_risk verifyInput e s w age :
  well_formed verifyInput e s w age false false false ->
  18 <= age <= 64 ->
  exists h w',
    call_checkEligibility verifyInput e s w = (Ok h, w')
    /\ FHE.userDecrypt (fhe w') h (this e) (msg_sender e) = Some (FHE.PUint8 1).
Proof.
  intros Hwf Hage.
  destruct (checkEligibility_decrypts _ _ _ _ _ _ _ _ Hwf) as (h & w' & Hrun & Hdec).
  exists h, w'. split; [exact Hrun|].
  rewrite Hdec, spec_category_eligible by exact Hage. reflexivity.
Qed.

Lemma eligible_in_band_without_risk_witness :
  exists h w',
    call_checkEligibility demo_verify demo_env demo_submission
      (demo_world 30 false false false) = (Ok h, w')
    /\ FHE.userDecrypt (fhe w') h (this demo_env) (msg_sender demo_env)
       = Some (FHE.PUint8 1).
Proof.
  apply (eligible_in_band_without_risk demo_verify demo_env demo_submission
           (demo_world 30 false false false) 30).
  - apply demo_well_formed.
  - lia.
Defined.

(** C2. For every age between 18 and 64 and every risk triple with at least
    one flag set, [checkEligibility] returns a handle that the caller
    decrypts to Moderate (2). *)
Theorem moderate_in_band_with_risk verifyInput e s w age hasHistory hasChronic riskyLifestyle :
  well_formed verifyInput e s w age hasHistory hasChronic riskyLifestyle ->
  18 <= age <= 64 ->
  hasHistory = true \/ hasChronic = true \/ riskyLifestyle = true ->
  exists h w',
    call_checkEligibility verifyInput e s w = (Ok h, w')
    /\ FHE.userDecrypt (fhe w') h (this e) (msg_sender e) = Some (FHE.PUint8 2).
Proof.
  intros Hwf Hage Hrisk.
  destruct (checkEligibility_decrypts _ _ _ _ _ _ _ _ Hwf) as (h & w' & Hrun & Hdec).
  exists h, w'. split; [exact Hrun|].
  rewrite Hdec, spec_category_moderate; [reflexivity | exact Hage |].
  destruct hasHistory, hasChronic, riskyLifestyle; try reflexivity.
  destruct Hrisk as [? | [? | ?]]; discriminate.
Qed.

Lemma moderate_in_band_with_risk_witness :
  exists h w',
    call_checkEligibility demo_verify demo_env demo_submission
      (demo_world 25 false true true) = (Ok h, w')
    /\ FHE.userDecrypt (fhe w') h (this demo_env) (msg_sender demo_env)
       = Some (FHE.PUint8 2).
Proof.
  apply (moderate_in_band_with_risk demo_verify demo_env demo_submission
           (demo_world 25 false true true) 25 false true true).
  - apply demo_well_formed.
  - lia.
  - right. left. reflexivity.
Defined.

(** C3. For every 8-bit age below 18 or above 64 and every risk triple,
    [checkEligibility] returns a handle that the caller decrypts to
    Not Eligible (3); with all flags false, the ages 17 and 65 give
    Not Eligible and the ages 18 and 64 give Eligible. *)
Theorem not_eligible_outside_band verifyInput e s w age hasHistory hasChronic riskyLifestyle :
  well_formed verifyInput e s w age hasHistory hasChronic riskyLifestyle ->
  0 <= age <= 255 ->
  exists h w' cat,
    call_checkEligibility verifyInput e s w = (Ok h, w')
    /\ FHE.userDecrypt (fhe w') h (this e) (msg_sender e) = Some (FHE.PUint8 cat)
    /\ (age < 18 \/ age > 64 -> cat = 3)
    /\ (hasHistory = false -> hasChronic = false -> riskyLifestyle = false ->
        (age = 17 \/ age = 65 -> cat = 3) /\ (age = 18 \/ age = 64 -> cat = 1)).
Proof.
  intros Hwf Hage.
  destruct (checkEligibility_decrypts _ _ _ _ _ _ _ _ Hwf) as (h & w' & Hrun & Hdec).
  exists h, w', (spec_category age hasHistory hasChronic riskyLifestyle).
  split; [exact Hrun|]. split; [exact Hdec|]. split.
  - intros Hout. now apply spec_category_not_eligible.
  - intros -> -> ->. split.
    + intros Hb. apply spec_category_not_eligible. lia.
    + intros Hb. apply spec_category_eligible. lia.
Qed.

Lemma not_eligible_outside_band_witness :
  exists h w' cat,
    call_checkEligibility demo_verify demo_env demo_submission
      (demo_world 70 true false true) = (Ok h, w')
    /\ FHE.userDecrypt (fhe w') h (this demo_env) (msg_sender demo_env)
       = Some (FHE.PUint8 cat)
    /\ (70 < 18 \/ 70 > 64 -> cat = 3)
    /\ (true = false -> false = false -> true = false ->
        (70 = 17 \/ 70 = 65 -> cat = 3) /\ (70 = 18 \/ 70 = 64 -> cat = 1)).
Proof.
  apply (not_eligible_outside_band demo_verify demo_env demo_submission
           (demo_world 70 true false true) 70 true false true).
  - apply demo_well_formed.
  - lia.
Defined.

(** C9. For every 8-bit age and every combination of the three flags, the
    category computed by [checkEligibility] decrypts to exactly one of 1, 2
    and 3, never to 0 or to any other value. *)
Theorem category_is_one_of_three verifyInput e s w age hasHistory hasChronic riskyLifestyle :
  well_formed verifyInput e s w age hasHistory hasChronic riskyLifestyle ->
  0 <= age <= 255 ->
  exists h w' cat,
    call_checkEligibility verifyInput e s w = (Ok h, w')
    /\ FHE.userDecrypt (fhe w') h (this e) (msg_sender e) = Some (FHE.PUint8 cat)
    /\ (cat = 1 \/ cat = 2 \/ cat = 3)
    /\ cat <> 0.
Proof.
  intros Hwf Hage.
  destruct (checkEligibility_decrypts _ _ _ _ _ _ _ _ Hwf) as (h & w' & Hrun & Hdec).
  exists h, w', (spec_category age hasHistory hasChronic riskyLifestyle).
  split; [exact Hrun|]. split; [exact Hdec|].
  pose proof (spec_category_range age hasHistory hasChronic riskyLifestyle) as Hr.
  cbn zeta in Hr. unfold CATEGORY_ELIGIBLE, CATEGORY_MODERATE, CATEGORY_NOT_ELIGIBLE in Hr.
  split; [exact Hr | lia].
Qed.

Lemma category_is_one_of_three_witness :
  exists h w' cat,
    call_checkEligibility demo_verify demo_env demo_submission
      (demo_world 200 false true false) = (Ok h, w')
    /\ FHE.userDecrypt (fhe w') h (this demo_env) (msg_sender demo_env)
       = Some (FHE.PUint8 cat)
    /\ (cat = 1 \/ cat = 2 \/ cat = 3)
    /\ cat <> 0.
Proof.
  apply (category_is_one_of_three demo_verify demo_env demo_submission
           (demo_world 200 false true false) 200 false true false).
  - apply demo_well_formed.
  - lia.
Defined.

(** ** Reachable states *)

Lemma invariant_initial : invariant initial.
Proof. split; [apply coprocessor_ok_initial|]. intros account. cbn. auto. Qed.

Lemma invariant_recorded e h c w :
  invariant w -> extends (fhe w) c -> FHE.next_handle (fhe w) <= h ->
  0 < block_timestamp e ->
  invariant (recorded e h c w).
Proof.
  intros [Hok Hrec] [_ Hext] Hh Hts. split.
  - cbn [recorded fhe]. do 2 apply coprocessor_ok_grant. auto.
  - intros account. cbn [recorded log store _lastCategory _lastEvaluatedAt].
    unfold lastEvaluation. cbn [List.find applicant].
    destruct (Z.eqb_spec (msg_sender e) account) as [<- | Hne].
    + cbn [categoryHandle timestamp]. rewrite !lookup_insert_eq.
      destruct Hok as [Hpos _]. repeat split; try reflexivity; lia.
    + rewrite !lookup_insert_ne by exact Hne. apply Hrec.
Qed.

Lemma invariant_step verifyInput w w' :
  invariant w -> step verifyInput w w' -> invariant w'.
Proof.
  intros Hinv Hstep. destruct Hstep as [e s w Hts | p w].
  - unfold transact.
    destruct (call_checkEligibility verifyInput e s w) as [[h | err] w'] eqn:Hcall;
      cbn [snd]; [|exact Hinv].
    apply checkEligibility_inv in Hcall as (_ & c & Hext & Hh & ->).
    now apply invariant_recorded.
  - destruct Hinv as [Hok Hrec]. split; [|exact Hrec].
    cbn [with_fhe fhe]. now apply coprocessor_ok_store.
Qed.

Lemma reachable_invariant verifyInput w : reachable verifyInput w -> invariant w.
Proof.
  unfold reachable. intros H.
  refine (rtc_ind_r (fun w => invariant w) initial invariant_initial _ w H).
  intros y z _ Hstep IH. exact (invariant_step _ _ _ IH Hstep).
Qed.

Lemma reachable_coprocessor_ok verifyInput w :
  reachable verifyInput w -> coprocessor_ok (fhe w).
Proof. intros H. apply (reachable_invariant _ _ H). Qed.

Lemma reachable_demo_world verifyInput age hasHistory hasChronic riskyLifestyle :
  reachable verifyInput (demo_world age hasHistory hasChronic riskyLifestyle).
Proof.
  unfold reachable.
  pose (w1 := with_fhe (FHE.store_ciphertext (FHE.PUint8 age) (fhe initial)) initial).
  pose (w2 := with_fhe (FHE.store_ciphertext (FHE.PBool hasHistory) (fhe w1)) w1).
  pose (w3 := with_fhe (FHE.store_ciphertext (FHE.PBool hasChronic) (fhe w2)) w2).
  change (demo_world age hasHistory hasChronic riskyLifestyle)
    with (with_fhe (FHE.store_ciphertext (FHE.PBool riskyLifestyle) (fhe w3)) w3).
  apply rtc_r with w3; [|apply step_encrypt].
  apply rtc_r with w2; [|apply step_encrypt].
  apply rtc_r with w1; [|apply step_encrypt].
  apply rtc_once, step_encrypt.
Qed.

Lemma demo_call :
  call_checkEligibility demo_verify demo_env demo_submission
    (demo_world 30 false false false) = (Ok 19, demo_after).
Proof. vm_compute. reflexivity. Qed.

Lemma demo_transact :
  (transact (call_checkEligibility demo_verify demo_env demo_submission)
     (demo_world 30 false false false)).2 = demo_after.
Proof. unfold transact. rewrite demo_call. reflexivity. Qed.

Lemma reachable_demo_after : reachable demo_verify demo_after.
Proof.
  eapply rtc_r; [apply (reachable_demo_world demo_verify 30 false false false)|].
  rewrite <- demo_transact. apply step_checkEligibility. reflexivity.
Qed.

Example demo_after_decrypts :
  FHE.userDecrypt (fhe demo_after) 19 1000 7 = Some (FHE.PUint8 1).
Proof. vm_compute. reflexivity. Qed.

Example demo_after_stranger_cannot_decrypt :
  FHE.userDecrypt (fhe demo_after) 19 1000 8 = None.
Proof. vm_compute. reflexivity. Qed.

(** ** The result store *)

(** C4. A successful [checkEligibility] overwrites the caller's record:
    right afterwards [getLastEligibility] of the caller returns the handle
    that [checkEligibility] returned together with the block timestamp, and
    an [EligibilityEvaluated] event with the caller, that handle and that
    timestamp has been emitted. *)
Theorem successful_call_is_recorded verifyInput e s w h w' :
  coprocessor_ok (fhe w) ->
  call_checkEligibility verifyInput e s w = (Ok h, w') ->
  getLastEligibility (msg_sender e) w' = (Ok (h, block_timestamp e), w')
  /\ log w' = EligibilityEvaluated (msg_sender e) h (block_timestamp e) :: log w.
Proof.
  intros [Hpos _] Hcall.
  apply checkEligibility_inv in Hcall as (_ & c & _ & Hh & ->).
  split; [|reflexivity].
  apply getLastEligibility_recorded. lia.
Qed.

Lemma successful_call_is_recorded_witness :
  getLastEligibility (msg_sender demo_env) demo_after
  = (Ok (19, block_timestamp demo_env), demo_after)
  /\ log demo_after
     = EligibilityEvaluated (msg_sender demo_env) 19 (block_timestamp demo_env)
       :: log (demo_world 30 false false false).
Proof.
  apply (successful_call_is_recorded demo_verify demo_env demo_submission
           (demo_world 30 false false false) 19 demo_after).
  - apply (wf_coprocessor _ _ _ _ _ _ _ _ (demo_well_formed 30 false false false)).
  - apply demo_call.
Defined.

Lemma checkEligibility_fails_at verifyInput e s c w :
  proofs_verify verifyInput e s = false ->
  call_checkEligibility verifyInput e s (with_fhe c w)
  = (Revert ProofVerificationError, with_fhe c w).
Proof.
  unfold proofs_verify, call_checkEligibility, checkEligibility. intros H.
  destruct (verifyInput _ _ (ageHandle s) _ _) eqn:P1;
    [rewrite (liftFHE_fromExternal _ _ _ _ _ _ _ _ _ P1)
    |now rewrite (liftFHE_fromExternal_fails _ _ _ _ _ _ _ _ _ P1)].
  destruct (verifyInput _ _ (historyHandle s) _ _) eqn:P2;
    [rewrite (liftFHE_fromExternal _ _ _ _ _ _ _ _ _ P2)
    |now rewrite (liftFHE_fromExternal_fails _ _ _ _ _ _ _ _ _ P2)].
  destruct (verifyInput _ _ (chronicHandle s) _ _) eqn:P3;
    [rewrite (liftFHE_fromExternal _ _ _ _ _ _ _ _ _ P3)
    |now rewrite (liftFHE_fromExternal_fails _ _ _ _ _ _ _ _ _ P3)].
  destruct (verifyInput _ _ (lifestyleHandle s) _ _) eqn:P4;
    [discriminate
    |now rewrite (liftFHE_fromExternal_fails _ _ _ _ _ _ _ _ _ P4)].
Qed.

(** C5. If one of the four validity proofs does not verify, the call reverts
    with the proof-verification error before anything was written: the
    state at the point of the revert is the state before the call, and the
    caller's stored (handle, timestamp) pair is the one from before the
    call. *)
Theorem failed_proof_leaves_record_untouched verifyInput e s w :
  proofs_verify verifyInput e s = false ->
  call_checkEligibility verifyInput e s w = (Revert ProofVerificationError, w)
  /\ transact (call_checkEligibility verifyInput e s) w
     = (Revert ProofVerificationError, w)
  /\ forall w_after,
       w_after = (transact (call_checkEligibility verifyInput e s) w).2 ->
       (getLastEligibility (msg_sender e) w_after).1
       = (getLastEligibility (msg_sender e) w).1.
Proof.
  intros H.
  assert (call_checkEligibility verifyInput e s w = (Revert ProofVerificationError, w))
    as Hcall.
  { rewrite <- (with_fhe_same w). now apply checkEligibility_fails_at. }
  split; [exact Hcall|].
  unfold transact. rewrite Hcall. split; [reflexivity|].
  now intros w_after ->.
Qed.

Lemma failed_proof_leaves_record_untouched_witness :
  call_checkEligibility demo_verify demo_env demo_bad_submission demo_after
  = (Revert ProofVerificationError, demo_after)
  /\ transact (call_checkEligibility demo_verify demo_env demo_bad_submission) demo_after
     = (Revert ProofVerificationError, demo_after)
  /\ forall w_after,
       w_after
       = (transact (call_checkEligibility demo_verify demo_env demo_bad_submission)
            demo_after).2 ->
       (getLastEligibility (msg_sender demo_env) w_after).1
       = (getLastEligibility (msg_sender demo_env) demo_after).1.
Proof.
  apply (failed_proof_leaves_record_untouched demo_verify demo_env
           demo_bad_submission demo_after).
  reflexivity.
Defined.



(** C7. A successful [checkEligibility] by one identity changes that
    identity's entry only: for every other identity [getLastEligibility]
    returns the same pair before and after, and the caller's record is
    overwritten in place, the store keeping one entry per identity. *)
Theorem evaluation_changes_only_the_caller verifyInput e s w h w' :
  call_checkEligibility verifyInput e s w = (Ok h, w') ->
  (forall other, other <> msg_sender e ->
     (getLastEligibility other w').1 = (getLastEligibility other w).1)
  /\ _lastCategory (store w') = <[msg_sender e := h]> (_lastCategory (store w))
  /\ _lastEvaluatedAt (store w')
     = <[msg_sender e := block_timestamp e]> (_lastEvaluatedAt (store w))
  /\ dom (_lastCategory (store w')) = {[msg_sender e]} ∪ dom (_lastCategory (store w)).
Proof.
  intros Hcall.
  apply checkEligibility_inv in Hcall as (_ & c & _ & _ & ->).
  split; [|split; [reflexivity | split; [reflexivity|]]].
  - intros other Hne. now apply getLastEligibility_recorded_other.
  - cbn [recorded store _lastCategory]. apply dom_insert_L.
Qed.

Lemma evaluation_changes_only_the_caller_witness :
  (forall other, other <> msg_sender demo_env ->
     (getLastEligibility other demo_after).1
     = (getLastEligibility other (demo_world 30 false false false)).1)
  /\ _lastCategory (store demo_after)
     = <[msg_sender demo_env := 19]>
         (_lastCategory (store (demo_world 30 false false false)))
  /\ _lastEvaluatedAt (store demo_after)
     = <[msg_sender demo_env := block_timestamp demo_env]>
         (_lastEvaluatedAt (store (demo_world 30 false false false)))
  /\ dom (_lastCategory (store demo_after))
     = {[msg_sender demo_env]}
       ∪ dom (_lastCategory (store (demo_world 30 false false false))).
Proof.
  apply (evaluation_changes_only_the_caller demo_verify demo_env demo_submission
           (demo_world 30 false false false) 19 demo_after).
  apply demo_call.
Defined.

(** *** Histories *)

Lemma reached_reachable verifyInput evs w :
  reached verifyInput evs w -> reachable verifyInput w.
Proof.
  unfold reachable. induction 1 as [| evs w e s _ IH Hts | evs w p _ IH].
  - apply rtc_refl.
  - eapply rtc_r; [exact IH|]. now apply step_checkEligibility.
  - eapply rtc_r; [exact IH|]. apply step_encrypt.
Qed.

Lemma reachable_has_history verifyInput w :
  reachable verifyInput w -> exists evs, reached verifyInput evs w.
Proof.
  unfold reachable. intros H.
  refine (rtc_ind_r (fun w => exists evs, reached verifyInput evs w) initial _ _ w H).
  - exists []. constructor.
  - clear w H. intros w w' _ Hstep [evs IH]. destruct Hstep as [e s w Hts | p w].
    + exists (record_call verifyInput e s w evs).
      apply reached_checkEligibility; assumption.
    + exists evs. now apply reached_encrypt.
Qed.

(** The log holds one event for each call that returned, in the same
    order, with the caller, the handle the call returned and the timestamp
    of its block. *)
Lemma reached_log verifyInput evs w :
  reached verifyInput evs w ->
  log w
  = List.map (fun ev => EligibilityEvaluated (caller ev) (returned ev) (evaluatedAt ev))
      evs.
Proof.
  induction 1 as [| evs w e s _ IH Hts | evs w p _ IH].
  - reflexivity.
  - unfold record_call, transact.
    destruct (call_checkEligibility verifyInput e s w) as [[h | err] w'] eqn:Hcall;
      cbn [fst snd]; [|exact IH].
    apply checkEligibility_inv in Hcall as (_ & c & _ & _ & ->).
    cbn [recorded log List.map caller returned evaluatedAt]. now rewrite IH.
  - exact IH.
Qed.

Lemma lastEvaluation_map account evs :
  lastEvaluation account
    (List.map (fun ev => EligibilityEvaluated (caller ev) (returned ev) (evaluatedAt ev))
       evs)
  = (fun ev => EligibilityEvaluated (caller ev) (returned ev) (evaluatedAt ev))
      <$> lastSuccessful account evs.
Proof.
  unfold lastEvaluation, lastSuccessful.
  induction evs as [|ev evs IH]; [reflexivity|].
  cbn [List.map find applicant]. destruct (caller ev =? account); [reflexivity | exact IH].
Qed.

Lemma lastSuccessful_None account evs :
  lastSuccessful account evs = None
  <-> forall ev, In ev evs -> caller ev <> account.
Proof.
  unfold lastSuccessful. split.
  - intros Hnone ev Hin Heq.
    apply (find_none _ _ Hnone) in Hin. apply Z.eqb_neq in Hin. contradiction.
  - intros Hall. induction evs as [|ev evs IH]; [reflexivity|].
    cbn [find]. destruct (Z.eqb_spec (caller ev) account) as [Heq | _].
    + exfalso. apply (Hall ev); [now left | exact Heq].
    + apply IH. intros ev' Hin. apply Hall. now right.
Qed.

Lemma lastSuccessful_Some account evs ev :
  lastSuccessful account evs = Some ev -> In ev evs /\ caller ev = account.
Proof.
  unfold lastSuccessful. intros H. apply find_some in H as [Hin Heq].
  split; [exact Hin | now apply Z.eqb_eq].
Qed.

Lemma demo_record_call :
  record_call demo_verify demo_env demo_submission (demo_world 30 false false false) []
  = demo_history.
Proof. unfold record_call. rewrite demo_call. reflexivity. Qed.

Lemma reached_demo_world verifyInput age hasHistory hasChronic riskyLifestyle :
  reached verifyInput [] (demo_world age hasHistory hasChronic riskyLifestyle).
Proof.
  pose (w1 := with_fhe (FHE.store_ciphertext (FHE.PUint8 age) (fhe initial)) initial).
  pose (w2 := with_fhe (FHE.store_ciphertext (FHE.PBool hasHistory) (fhe w1)) w1).
  pose (w3 := with_fhe (FHE.store_ciphertext (FHE.PBool hasChronic) (fhe w2)) w2).
  change (demo_world age hasHistory hasChronic riskyLifestyle)
    with (with_fhe (FHE.store_ciphertext (FHE.PBool riskyLifestyle) (fhe w3)) w3).
  apply reached_encrypt. apply (reached_encrypt _ _ w2). apply (reached_encrypt _ _ w1).
  apply (reached_encrypt _ _ initial). apply reached_initial.
Qed.

Lemma reached_demo_after : reached demo_verify demo_history demo_after.
Proof.
  rewrite <- demo_record_call, <- demo_transact.
  apply reached_checkEligibility; [apply reached_demo_world | reflexivity].
Qed.

(** C10. In every reachable state and for every account, the pair returned
    by [getLastEligibility] is coherent.  The states are taken with their
    history, the calls of [checkEligibility] that returned (every reachable
    state has one).  The pair is the zero pair exactly when no call of the
    account returned, and otherwise it is the handle that the account's
    most recent successful call returned together with the timestamp of
    that call's block, both nonzero (block timestamps being nonzero); so a
    zero handle never comes with a nonzero timestamp, nor the reverse. *)
Theorem last_result_is_coherent verifyInput evs w account :
  reached verifyInput evs w ->
  exists h t,
    getLastEligibility account w = (Ok (h, t), w)
    /\ (h = 0 <-> t = 0)
    /\ (h = 0 /\ t = 0 <-> forall ev, In ev evs -> caller ev <> account)
    /\ match lastSuccessful account evs with
       | None => h = 0 /\ t = 0
       | Some ev =>
           In ev evs /\ caller ev = account
           /\ h = returned ev /\ t = evaluatedAt ev /\ h <> 0 /\ t <> 0
       end.
Proof.
  intros Hreach.
  destruct (reachable_invariant _ _ (reached_reachable _ _ _ Hreach)) as [_ Hrec].
  specialize (Hrec account).
  rewrite (reached_log _ _ _ Hreach), lastEvaluation_map in Hrec.
  rewrite getLastEligibility_eq.
  pose proof (lastSuccessful_None account evs) as Hnone.
  destruct (lastSuccessful account evs) as [ev|] eqn:Hlast;
    cbn [fmap option_fmap option_map] in Hrec.
  - cbn [categoryHandle timestamp] in Hrec.
    destruct Hrec as (Hcat & Hts & Hh & Ht). rewrite Hcat, Hts. cbn [default].
    rewrite isInitialized_pos by exact Hh.
    destruct (lastSuccessful_Some _ _ _ Hlast) as [Hin Hcaller].
    exists (returned ev), (evaluatedAt ev).
    split; [reflexivity|]. split; [lia|]. split.
    + split; [lia|]. intros Hall. apply Hnone in Hall. discriminate.
    + repeat split; try assumption; lia.
  - destruct Hrec as (Hcat & Hts). rewrite Hcat. cbn.
    exists 0, 0. split; [reflexivity|]. split; [tauto|]. split; [|tauto].
    split; [intros _; now apply Hnone | tauto].
Qed.

Lemma last_result_is_coherent_witness :
  reached demo_verify demo_history demo_after
  /\ exists h t,
    getLastEligibility 7 demo_after = (Ok (h, t), demo_after)
    /\ (h = 0 <-> t = 0)
    /\ (h = 0 /\ t = 0 <-> forall ev, In ev demo_history -> caller ev <> 7)
    /\ match lastSuccessful 7 demo_history with
       | None => h = 0 /\ t = 0
       | Some ev =>
           In ev demo_history /\ caller ev = 7
           /\ h = returned ev /\ t = evaluatedAt ev /\ h <> 0 /\ t <> 0
       end.
Proof.
  split; [apply reached_demo_after|].
  apply (last_result_is_coherent demo_verify demo_history demo_after 7).
  apply reached_demo_after.
Defined.

(** ** More on the contract: what a call does to rights and ciphertexts *)

Lemma preserves_refl c : preserves c c.
Proof. split; [lia|]. split; [reflexivity|]. auto. Qed.

Lemma preserves_trans c1 c2 c3 : preserves c1 c2 -> preserves c2 c3 -> preserves c1 c3.
Proof.
  intros (N1 & A1 & L1) (N2 & A2 & L2). split; [lia|]. split; [congruence|].
  intros h Hh. rewrite L2 by lia. now apply L1.
Qed.

Lemma preserves_store p c : preserves c (FHE.store_ciphertext p c).
Proof.
  split; [cbn; lia|]. split; [reflexivity|].
  intros h Hh. now apply lookup_store_lt.
Qed.

Lemma allocates_preserves m c h c' :
  allocates m -> m c = (Ok h, c') -> h = FHE.next_handle c /\ preserves c c'.
Proof.
  intros Hm Hrun. destruct (Hm _ _ _ Hrun) as (-> & p & ->).
  split; [reflexivity | apply preserves_store].
Qed.

Lemma allocates_fresh p : allocates (FHE.fresh p).
Proof. intros c h c' [= <- <-]. eauto. Qed.

Lemma allocates_asEuint8 v : allocates (FHE.asEuint8 v).
Proof. apply allocates_fresh. Qed.

Lemma allocates_ge a b : allocates (FHE.ge a b).
Proof. intros c h c' H. unfold FHE.ge in H. invert_reads. eapply allocates_fresh, H. Qed.

Lemma allocates_le a b : allocates (FHE.le a b).
Proof. intros c h c' H. unfold FHE.le in H. invert_reads. eapply allocates_fresh, H. Qed.

Lemma allocates_and a b : allocates (FHE.and a b).
Proof. intros c h c' H. unfold FHE.and in H. invert_reads. eapply allocates_fresh, H. Qed.

Lemma allocates_or a b : allocates (FHE.or a b).
Proof. intros c h c' H. unfold FHE.or in H. invert_reads. eapply allocates_fresh, H. Qed.

Lemma allocates_not a : allocates (FHE.not a).
Proof. intros c h c' H. unfold FHE.not in H. invert_reads. eapply allocates_fresh, H. Qed.

Lemma allocates_select k a b : allocates (FHE.select k a b).
Proof. intros c h c' H. unfold FHE.select in H. invert_reads. eapply allocates_fresh, H. Qed.

Lemma asEuint8_inv v c h c' :
  FHE.asEuint8 v c = (Ok h, c') ->
  h = FHE.next_handle c /\ c' = FHE.store_ciphertext (FHE.PUint8 (v mod 256)) c.
Proof. intros [= <- <-]. auto. Qed.

Lemma select_inv k a b c h c' :
  FHE.select k a b c = (Ok h, c') ->
  exists kv x y,
    FHE.ciphertexts c !! k = Some (FHE.PBool kv)
    /\ FHE.ciphertexts c !! a = Some (FHE.PUint8 x)
    /\ FHE.ciphertexts c !! b = Some (FHE.PUint8 y)
    /\ h = FHE.next_handle c
    /\ c' = FHE.store_ciphertext (FHE.PUint8 (if kv then x else y)) c.
Proof.
  intros H. unfold FHE.select in H. invert_reads. injection H as <- <-.
  eauto 10.
Qed.

(** The five last library calls of [checkEligibility], whatever came
    before: the three labels and the two nested selects. *)
Ltac read_back H :=
  repeat first
    [ rewrite lookup_store_eq in H by (rewrite ?next_handle_store; lia)
    | rewrite lookup_store_lt in H by (rewrite ?next_handle_store; lia) ].

Lemma checkEligibility_inv_full verifyInput e s w h w' :
  call_checkEligibility verifyInput e s w = (Ok h, w') ->
  exists c,
    preserves (fhe w) c
    /\ FHE.next_handle (fhe w) <= h
    /\ FHE.next_handle c = h + 1
    /\ is_category c h
    /\ w' = recorded e h c w.
Proof.
  unfold call_checkEligibility, checkEligibility. intros H.
  do 4 (call_inv H).
  repeat match goal with
  | K : FHE.fromExternal _ _ _ _ _ _ _ = _ |- _ =>
      apply fromExternal_inv in K; destruct K as (_ & -> & ->)
  end.
  do 15 (call_inv H).
  rewrite record_tail in H. injection H as <- <-.
  repeat match goal with
  | K : FHE.select _ _ _ _ = _ |- _ =>
      apply select_inv in K; destruct K as (? & ? & ? & ? & ? & ? & ? & ?)
  | K : FHE.asEuint8 CATEGORY_ELIGIBLE _ = _ |- _ => apply asEuint8_inv in K; destruct K
  | K : FHE.asEuint8 CATEGORY_MODERATE _ = _ |- _ => apply asEuint8_inv in K; destruct K
  | K : FHE.asEuint8 CATEGORY_NOT_ELIGIBLE _ = _ |- _ => apply asEuint8_inv in K; destruct K
  end.
  repeat match goal with
  | K : FHE.asEuint8 _ _ = _ |- _ => apply (allocates_preserves _ _ _ _ (allocates_asEuint8 _)) in K; destruct K
  | K : FHE.ge _ _ _ = _ |- _ => apply (allocates_preserves _ _ _ _ (allocates_ge _ _)) in K; destruct K
  | K : FHE.le _ _ _ = _ |- _ => apply (allocates_preserves _ _ _ _ (allocates_le _ _)) in K; destruct K
  | K : FHE.and _ _ _ = _ |- _ => apply (allocates_preserves _ _ _ _ (allocates_and _ _)) in K; destruct K
  | K : FHE.or _ _ _ = _ |- _ => apply (allocates_preserves _ _ _ _ (allocates_or _ _)) in K; destruct K
  | K : FHE.not _ _ = _ |- _ => apply (allocates_preserves _ _ _ _ (allocates_not _)) in K; destruct K
  end.
  subst.
  read_back H5. read_back H6. read_back H0. read_back H1.
  injection H5 as <-. injection H6 as <-. injection H0 as <-. injection H1 as <-.
  assert (preserves (fhe w) x19) as Hpre.
  { repeat match goal with
    | K1 : preserves ?a ?b, K2 : preserves ?b ?c |- _ =>
        pose proof (preserves_trans _ _ _ K1 K2); clear K1 K2
    end. assumption. }
  eexists. split; [|split; [|split; [|split; [|reflexivity]]]].
  - repeat (eapply preserves_trans; [|apply preserves_store]). exact Hpre.
  - destruct Hpre as (Hn & _). rewrite ?next_handle_store. lia.
  - rewrite ?next_handle_store. lia.
  - unfold is_category. rewrite lookup_store_eq by reflexivity.
    eexists. split; [reflexivity|].
    change (CATEGORY_ELIGIBLE mod 256) with CATEGORY_ELIGIBLE.
    change (CATEGORY_MODERATE mod 256) with CATEGORY_MODERATE.
    change (CATEGORY_NOT_ELIGIBLE mod 256) with CATEGORY_NOT_ELIGIBLE.
    destruct x28, x32; auto.
Qed.

Lemma reachable_acl_ok verifyInput w : reachable verifyInput w -> acl_ok (fhe w).
Proof.
  unfold reachable. intros H.
  refine (rtc_ind_r (fun w => acl_ok (fhe w)) initial _ _ w H).
  - intros h u Hin. cbn in Hin. set_solver.
  - clear w H. intros w w2 _ Hstep IH. destruct Hstep as [e s w Hts | p w].
    + unfold transact.
      destruct (call_checkEligibility verifyInput e s w) as [[h | err] w'] eqn:Hcall;
        cbn [snd]; [|exact IH].
      destruct (checkEligibility_inv_full _ _ _ _ _ _ Hcall) as (c & (Hn & Hacl & _) & Hh & Hnext & _ & ->).
      intros h' u Hin. cbn [recorded fhe FHE.grant FHE.acl FHE.next_handle] in Hin |- *.
      rewrite Hacl in Hin.
      apply elem_of_union in Hin as [Hin | Hin];
        [|apply elem_of_union in Hin as [Hin | Hin]].
      * apply elem_of_singleton in Hin. injection Hin as -> ->. lia.
      * apply elem_of_singleton in Hin. injection Hin as -> ->. lia.
      * specialize (IH _ _ Hin). lia.
    + intros h u Hin. cbn in Hin |- *. specialize (IH _ _ Hin). lia.
Qed.

Lemma is_category_preserved c c' h :
  (forall h0, h0 < FHE.next_handle c -> FHE.ciphertexts c' !! h0 = FHE.ciphertexts c !! h0) ->
  h < FHE.next_handle c -> is_category c h -> is_category c' h.
Proof.
  intros Hold Hh (cat & Hc & Hcat). exists cat. split; [|exact Hcat].
  now rewrite Hold.
Qed.

Lemma reachable_records_sound verifyInput w :
  reachable verifyInput w -> records_sound w.
Proof.
  unfold reachable. intros H.
  refine (rtc_ind_r records_sound initial _ _ w H).
  - intros ev [].
  - clear w H. intros w w2 _ Hstep IH. destruct Hstep as [e s w Hts | p w].
    + unfold transact.
      destruct (call_checkEligibility verifyInput e s w) as [[h | err] w'] eqn:Hcall;
        cbn [snd]; [|exact IH].
      destruct (checkEligibility_inv_full _ _ _ _ _ _ Hcall)
        as (c & (Hn & Hacl & Hold) & Hh & Hnext & Hcat & ->).
      intros ev Hev.
      cbn [recorded fhe log FHE.grant FHE.acl FHE.next_handle FHE.ciphertexts] in Hev |- *.
      destruct Hev as [<- | Hev].
      * cbn [categoryHandle applicant]. split; [lia|]. split; [exact Hcat|].
        clear. set_solver.
      * destruct (IH ev Hev) as (Hlt & Hc & Hr). split; [lia|]. split.
        -- eapply is_category_preserved; [exact Hold | exact Hlt | exact Hc].
        -- rewrite Hacl. clear -Hr. set_solver.
    + intros ev Hev. cbn [with_fhe fhe log] in Hev |- *.
      destruct (IH ev Hev) as (Hlt & Hc & Hr).
      split; [cbn; lia|]. split; [|exact Hr].
      eapply is_category_preserved; [|exact Hlt | exact Hc].
      intros h0 Hh0. now apply lookup_store_lt.
Qed.

Lemma acl_ok_demo_world age hasHistory hasChronic riskyLifestyle :
  acl_ok (fhe (demo_world age hasHistory hasChronic riskyLifestyle)).
Proof. intros h u Hin. cbn in Hin. set_solver. Qed.

(** X1. The decision table, both ways: on well-formed inputs the category
    the caller decrypts is 1 exactly when the age is in the band and no flag
    is set, 2 exactly when the age is in the band and some flag is set, and
    3 exactly when the age is outside the band. *)
Theorem category_decision_table verifyInput e s w age hasHistory hasChronic riskyLifestyle :
  well_formed verifyInput e s w age hasHistory hasChronic riskyLifestyle ->
  exists h w' cat,
    call_checkEligibility verifyInput e s w = (Ok h, w')
    /\ FHE.userDecrypt (fhe w') h (this e) (msg_sender e) = Some (FHE.PUint8 cat)
    /\ (cat = 1 <->
        18 <= age <= 64 /\ hasHistory = false /\ hasChronic = false /\ riskyLifestyle = false)
    /\ (cat = 2 <->
        18 <= age <= 64 /\ (hasHistory = true \/ hasChronic = true \/ riskyLifestyle = true))
    /\ (cat = 3 <-> age < 18 \/ 64 < age).
Proof.
  intros Hwf.
  destruct (checkEligibility_decrypts _ _ _ _ _ _ _ _ Hwf) as (h & w' & Hrun & Hdec).
  exists h, w', (spec_category age hasHistory hasChronic riskyLifestyle).
  split; [exact Hrun|]. split; [exact Hdec|].
  unfold spec_category, CATEGORY_ELIGIBLE, CATEGORY_MODERATE, CATEGORY_NOT_ELIGIBLE.
  destruct (Z.leb_spec 18 age), (Z.leb_spec age 64);
    destruct hasHistory, hasChronic, riskyLifestyle; cbn;
    (split; [|split]); split; intros; try lia; try discriminate;
    intuition (try lia; try discriminate).
Qed.

Lemma category_decision_table_witness :
  exists h w' cat,
    call_checkEligibility demo_verify demo_env demo_submission
      (demo_world 64 false false true) = (Ok h, w')
    /\ FHE.userDecrypt (fhe w') h (this demo_env) (msg_sender demo_env)
       = Some (FHE.PUint8 cat)
    /\ (cat = 1 <-> 18 <= 64 <= 64 /\ false = false /\ false = false /\ true = false)
    /\ (cat = 2 <-> 18 <= 64 <= 64 /\ (false = true \/ false = true \/ true = true))
    /\ (cat = 3 <-> 64 < 18 \/ 64 < 64).
Proof.
  apply (category_decision_table demo_verify demo_env demo_submission
           (demo_world 64 false false true) 64 false false true).
  apply demo_well_formed.
Defined.

(** X2. After a successful call the rights over the returned handle are
    held by the caller and by the contract and by nobody else, so no other
    account can decrypt the result. *)
Theorem result_rights_are_caller_and_contract verifyInput e s w h w' :
  acl_ok (fhe w) ->
  call_checkEligibility verifyInput e s w = (Ok h, w') ->
  (forall u, (h, u) ∈ FHE.acl (fhe w') <-> u = msg_sender e \/ u = this e)
  /\ forall contract u,
       u <> msg_sender e -> u <> this e ->
       FHE.userDecrypt (fhe w') h contract u = None.
Proof.
  intros Hacl Hcall.
  destruct (checkEligibility_inv_full _ _ _ _ _ _ Hcall) as (c & (_ & Hsame & _) & Hh & _ & _ & ->).
  assert (forall u, (h, u) ∈ FHE.acl (fhe (recorded e h c w))
                    <-> u = msg_sender e \/ u = this e) as Hrights.
  { intros u. cbn [recorded fhe FHE.grant FHE.acl]. rewrite Hsame. split.
    - intros Hin.
      apply elem_of_union in Hin as [Hin | Hin];
        [|apply elem_of_union in Hin as [Hin | Hin]].
      + apply elem_of_singleton in Hin. injection Hin as ->. auto.
      + apply elem_of_singleton in Hin. injection Hin as ->. auto.
      + specialize (Hacl _ _ Hin). lia.
    - intros [-> | ->]; clear; set_solver. }
  split; [exact Hrights|].
  intros contract u Hu1 Hu2. unfold FHE.userDecrypt.
  rewrite (bool_decide_eq_false_2 ((h, u) ∈ _)); [reflexivity|].
  rewrite Hrights. tauto.
Qed.

Lemma result_rights_are_caller_and_contract_witness :
  (forall u, (19, u) ∈ FHE.acl (fhe demo_after)
             <-> u = msg_sender demo_env \/ u = this demo_env)
  /\ forall contract u,
       u <> msg_sender demo_env -> u <> this demo_env ->
       FHE.userDecrypt (fhe demo_after) 19 contract u = None.
Proof.
  apply (result_rights_are_caller_and_contract demo_verify demo_env demo_submission
           (demo_world 30 false false false) 19 demo_after).
  - apply acl_ok_demo_world.
  - apply demo_call.
Defined.

(** X3. Of all the ciphertexts a call creates (the constants, the two
    comparisons, the range and risk bits, the labels, the inner select) only
    the final category is ever made decryptable: nobody holds rights over
    any other handle issued during the call. *)
Theorem intermediate_values_stay_sealed verifyInput e s w h w' :
  acl_ok (fhe w) ->
  call_checkEligibility verifyInput e s w = (Ok h, w') ->
  forall h' contract u,
    FHE.next_handle (fhe w) <= h' -> h' <> h ->
    FHE.userDecrypt (fhe w') h' contract u = None.
Proof.
  intros Hacl Hcall h' contract u Hnew Hne.
  destruct (checkEligibility_inv_full _ _ _ _ _ _ Hcall) as (c & (_ & Hsame & _) & _ & _ & _ & ->).
  unfold FHE.userDecrypt.
  rewrite (bool_decide_eq_false_2 ((h', u) ∈ _)); [reflexivity|].
  cbn [recorded fhe FHE.grant FHE.acl]. rewrite Hsame. intros Hin.
  apply elem_of_union in Hin as [Hin | Hin];
    [|apply elem_of_union in Hin as [Hin | Hin]].
  - apply elem_of_singleton in Hin. congruence.
  - apply elem_of_singleton in Hin. congruence.
  - specialize (Hacl _ _ Hin). lia.
Qed.

Lemma intermediate_values_stay_sealed_witness :
  FHE.userDecrypt (fhe demo_after) 12 1000 7 = None.
Proof.
  apply (intermediate_values_stay_sealed demo_verify demo_env demo_submission
           (demo_world 30 false false false) 19 demo_after).
  - apply acl_ok_demo_world.
  - apply demo_call.
  - vm_compute. discriminate.
  - discriminate.
Defined.

(** X4. A successful call neither revokes nor grants anything on what was
    there before: for every handle issued before the call, and every
    requester, user decryption gives the same answer after the call as
    before it. *)
Theorem earlier_ciphertexts_are_unaffected verifyInput e s w h w' :
  call_checkEligibility verifyInput e s w = (Ok h, w') ->
  forall h0 contract u,
    h0 < FHE.next_handle (fhe w) ->
    FHE.userDecrypt (fhe w') h0 contract u = FHE.userDecrypt (fhe w) h0 contract u.
Proof.
  intros Hcall h0 contract u Hold.
  destruct (checkEligibility_inv_full _ _ _ _ _ _ Hcall) as (c & (_ & Hsame & Hkeep) & Hh & _ & _ & ->).
  unfold FHE.userDecrypt. cbn [recorded fhe FHE.grant FHE.acl FHE.ciphertexts].
  rewrite Hsame, (Hkeep _ Hold).
  assert (forall v, bool_decide ((h0, v) ∈ ({[(h, this e)]} ∪ ({[(h, msg_sender e)]} ∪ FHE.acl (fhe w)) : gset (Z * Z)))
                    = bool_decide ((h0, v) ∈ FHE.acl (fhe w))) as Hmem.
  { intros v. apply bool_decide_ext. split; [|clear; set_solver].
    intros Hin.
    apply elem_of_union in Hin as [Hin | Hin];
      [|apply elem_of_union in Hin as [Hin | Hin]]; [| |exact Hin].
    - apply elem_of_singleton in Hin. injection Hin as ->. lia.
    - apply elem_of_singleton in Hin. injection Hin as ->. lia. }
  now rewrite !Hmem.
Qed.

Lemma earlier_ciphertexts_are_unaffected_witness :
  FHE.userDecrypt (fhe demo_after) 1 1000 7
  = FHE.userDecrypt (fhe (demo_world 30 false false false)) 1 1000 7.
Proof.
  apply (earlier_ciphertexts_are_unaffected demo_verify demo_env demo_submission
           (demo_world 30 false false false) 19 demo_after).
  - apply demo_call.
  - vm_compute. reflexivity.
Defined.

(** X5. Whatever the inputs stand for, a call that succeeds stores a
    category: the returned handle is the ciphertext of 1, 2 or 3, because
    both selects choose among the three labels the contract has just
    encrypted itself. *)
Theorem successful_call_stores_a_category verifyInput e s w h w' :
  call_checkEligibility verifyInput e s w = (Ok h, w') ->
  exists cat,
    FHE.ciphertexts (fhe w') !! h = Some (FHE.PUint8 cat)
    /\ (cat = 1 \/ cat = 2 \/ cat = 3).
Proof.
  intros Hcall.
  destruct (checkEligibility_inv_full _ _ _ _ _ _ Hcall) as (c & _ & _ & _ & Hcat & ->).
  exact Hcat.
Qed.

Lemma successful_call_stores_a_category_witness :
  exists cat,
    FHE.ciphertexts (fhe demo_after) !! 19 = Some (FHE.PUint8 cat)
    /\ (cat = 1 \/ cat = 2 \/ cat = 3).
Proof.
  apply (successful_call_stores_a_category demo_verify demo_env demo_submission
           (demo_world 30 false false false) 19 demo_after).
  apply demo_call.
Defined.

(** X6. In every reachable state, a nonzero handle returned by
    [getLastEligibility] for an account is the ciphertext of a category
    (1, 2 or 3) and the account holds rights over it, however many
    evaluations by anybody have happened since it was stored. *)
Theorem stored_handle_is_a_category_of_its_owner verifyInput w account h t :
  reachable verifyInput w ->
  getLastEligibility account w = (Ok (h, t), w) ->
  h <> 0 ->
  (exists cat,
     FHE.ciphertexts (fhe w) !! h = Some (FHE.PUint8 cat)
     /\ (cat = 1 \/ cat = 2 \/ cat = 3))
  /\ (h, account) ∈ FHE.acl (fhe w).
Proof.
  intros Hreach Hget Hnz.
  destruct (reachable_invariant _ _ Hreach) as [_ Hrec].
  pose proof (reachable_records_sound _ _ Hreach) as Hsound.
  specialize (Hrec account). rewrite getLastEligibility_eq in Hget.
  destruct (lastEvaluation account (log w)) as [ev|] eqn:Hlast.
  - destruct Hrec as (Hcat & Hts & Hpos & _). rewrite Hcat, Hts in Hget.
    cbn [default] in Hget. rewrite isInitialized_pos in Hget by exact Hpos.
    injection Hget as <- <-.
    apply List.find_some in Hlast as [Hin Happ]. apply Z.eqb_eq in Happ. subst account.
    destruct (Hsound ev Hin) as (_ & Hc & Hr). split; [exact Hc | exact Hr].
  - destruct Hrec as (Hcat & _). rewrite Hcat in Hget. cbn in Hget.
    injection Hget as <- <-. contradiction.
Qed.

Lemma stored_handle_is_a_category_of_its_owner_witness :
  (exists cat,
     FHE.ciphertexts (fhe demo_after) !! 19 = Some (FHE.PUint8 cat)
     /\ (cat = 1 \/ cat = 2 \/ cat = 3))
  /\ (19, 7) ∈ FHE.acl (fhe demo_after).
Proof.
  apply (stored_handle_is_a_category_of_its_owner demo_verify demo_after 7 19 1700000000).
  - apply reachable_demo_after.
  - vm_compute. reflexivity.
  - discriminate.
Defined.

(** ** The submission handler *)

Import Page.

Example trim_age : JSString.trim (JSString.lit "  42 ") = JSString.lit "42".
Proof. reflexivity. Qed.

(** A no-break space, a byte order mark and a line separator are trimmed
    like a blank. *)
Example trim_unicode_space :
  JSString.trim (160 :: 65279 :: JSString.lit "42" ++ [8232])%list = JSString.lit "42".
Proof. reflexivity. Qed.

Example parseInt_age : JSString.parseInt (JSString.lit "42") = Some 42%Z.
Proof. reflexivity. Qed.

Example parseInt_not_a_number : JSString.parseInt (JSString.lit "abc") = None.
Proof. reflexivity. Qed.

Example parseInt_stops_at_first_non_digit :
  JSString.parseInt (JSString.lit "12px") = Some 12%Z.
Proof. reflexivity. Qed.

Example Number_rounds_above_2_53 :
  Number 9007199254740993 = Finite 9007199254740992.
Proof. reflexivity. Qed.

Example handleSubmit_completes :
  let r := handleSubmit demo_form demo_oracle_signing demo_page in
  timelineState r.1 = t_complete
  /\ isSubmitting r.1 = false
  /\ errorMessage r.1 = None
  /\ evaluationResult r.1
     = Some {| category := Finite 1; handle := "0x13";
               timestamp := Some (Finite 1700000000%Z); txHash := Some "0xaa" |}
  /\ r.2 = [E_decrypt; E_wait; E_sendTransaction; E_staticCall;
            E_encryptLifestyle; E_encryptChronic; E_encryptHistory; E_encryptAge;
            E_getAddress; E_getSigner].
Proof. vm_compute. repeat split. Qed.

Example handleSubmit_refuses_leading_zero :
  let r := handleSubmit demo_form_leading_zero demo_oracle_signing demo_page in
  errorMessage r.1 = Some "Please enter a valid age."
  /\ timelineState r.1 = t_idle
  /\ r.2 = [].
Proof. vm_compute. repeat split. Qed.

Lemma rejection_recognised err :
  code err = Some (CodeNumber 4001)
  \/ code err = Some (CodeString "ACTION_REJECTED")
  \/ (exists m, message err = Some m /\ includes "user rejected" m = true) ->
  code_is (CodeNumber 4001) err
  || code_is (CodeString "ACTION_REJECTED") err
  || message_includes "user rejected" (message err) = true.
Proof.
  intros [H | [H | (m & Hm & Hincl)]].
  - unfold code_is at 1. rewrite H. reflexivity.
  - apply orb_true_intro. left. apply orb_true_intro. right.
    unfold code_is. rewrite H. reflexivity.
  - apply orb_true_intro. right. unfold message_includes. now rewrite Hm.
Qed.

Ltac handler_norm :=
  cbv beta iota zeta delta
    [handleSubmit handleSubmit_body hbind pure return_ throw set await try_catch
     try_finally call requestNetworkSwitch setTimelineState
     setErrorMessage setSuccessMessage setIsSubmitting setEvaluationResult
     setAgeInputError resetTimeline fst snd negb
     timelineState errorMessage successMessage isSubmitting evaluationResult
     ageInputError] in *.

Ltac no_send H := exfalso; cbn in H; intuition discriminate.

Ltac refute H :=
  exfalso;
  repeat match type of H with
         | context [if ?b then _ else _] => destruct b
         end;
  cbn in H; intuition discriminate.

(** C8. When the signer rejects the submission signature while the handler
    is submitting, the attempt ends in the failed state with the reason
    "user rejected": the timeline is back to idle with the rejection
    message, nothing is in flight any more, and the transaction was asked
    for once and never again; nothing follows it in the same run. *)
Theorem signature_rejection_is_terminal f o p err :
  o_send o = Rejected err ->
  (code err = Some (CodeNumber 4001)
   \/ code err = Some (CodeString "ACTION_REJECTED")
   \/ exists m, message err = Some m /\ includes "user rejected" m = true) ->
  In E_sendTransaction (handleSubmit f o p).2 ->
  let p' := (handleSubmit f o p).1 in
  workflowState p' = Failed UserRejected
  /\ timelineState p' = t_idle
  /\ errorMessage p' = Some "Transaction signature rejected. No data was sent."
  /\ isSubmitting p' = false
  /\ successMessage p' = None
  /\ evaluationResult p' = evaluationResult p
  /\ exists before,
       (handleSubmit f o p).2 = E_sendTransaction :: before
       /\ ~ In E_sendTransaction before
       /\ ~ In E_wait before /\ ~ In E_decrypt before.
Proof.
  intros Hsend Hrej Hin. apply rejection_recognised in Hrej.
  handler_norm.
  destruct (walletReady f); [|no_send Hin].
  destruct (onSepolia f).
  2:{ destruct (o_ethereum o); [|no_send Hin].
      destruct (o_switchChain o); [no_send Hin|].
      destruct (code_is (CodeNumber 4902) err0); [|no_send Hin].
      destruct (o_addChain o); no_send Hin. }
  destruct (isContractConfigured f); [|no_send Hin].
  destruct (JSString.is_empty (JSString.trim (age f))); [no_send Hin|].
  destruct (JSString.includes (JSString.lit ".") (JSString.trim (age f)));
    [no_send Hin|].
  destruct ((1 <? List.length (JSString.trim (age f)))%nat
            && JSString.startsWith (JSString.lit "0") (JSString.trim (age f)));
    [no_send Hin|].
  destruct (JSString.includes (JSString.lit "-") (JSString.trim (age f)));
    [no_send Hin|].
  destruct (JSString.parseInt (JSString.trim (age f))) as [numericAge|];
    [|no_send Hin].
  destruct (numericAge <=? 0)%Z; [no_send Hin|].
  destruct (150 <? numericAge)%Z; [no_send Hin|].
  destruct (hasHistory f), (hasChronic f), (hasLifestyleRisk f); try no_send Hin.
  all: destruct (fheStatus f); cbv beta iota in Hin |- *.
  all: (destruct (o_fheInstance o); [|no_send Hin]).
  all: (destruct (o_ethereum o); cbv beta iota in Hin |- *; [|refute Hin]).
  all: (destruct (o_getSigner o); cbv beta iota in Hin |- *; [|refute Hin]).
  all: (destruct (o_getAddress o); cbv beta iota in Hin |- *; [|refute Hin]).
  all: (destruct (o_encryptAge o); cbv beta iota in Hin |- *; [|refute Hin]).
  all: (destruct (o_encryptHistory o); cbv beta iota in Hin |- *; [|refute Hin]).
  all: (destruct (o_encryptChronic o); cbv beta iota in Hin |- *; [|refute Hin]).
  all: (destruct (o_encryptLifestyle o); cbv beta iota in Hin |- *; [|refute Hin]).
  all: (destruct (o_staticCall o); cbv beta iota in Hin |- *; [|refute Hin]).
  all: rewrite Hsend in Hin |- *; cbv beta iota in Hin |- *.
  all: rewrite Hrej in Hin |- *; cbv beta iota in Hin |- *.
  all: repeat split; try reflexivity.
  all: eexists; split; [reflexivity|]; cbn; intuition discriminate.
Qed.

Lemma signature_rejection_is_terminal_witness :
  let p' := (handleSubmit demo_form demo_oracle demo_page).1 in
  workflowState p' = Failed UserRejected
  /\ timelineState p' = t_idle
  /\ errorMessage p' = Some "Transaction signature rejected. No data was sent."
  /\ isSubmitting p' = false
  /\ successMessage p' = None
  /\ evaluationResult p' = evaluationResult demo_page
  /\ exists before,
       (handleSubmit demo_form demo_oracle demo_page).2 = E_sendTransaction :: before
       /\ ~ In E_sendTransaction before
       /\ ~ In E_wait before /\ ~ In E_decrypt before.
Proof.
  apply (signature_rejection_is_terminal demo_form demo_oracle demo_page demo_rejection).
  - reflexivity.
  - left. reflexivity.
  - vm_compute. left. reflexivity.
Defined.

(** ** The FHEVM hook *)

Import Async.

(** X7. [initialize] never rejects: whatever the SDK answers, the promise
    resolves after exactly one call to the SDK.  It ends ready with the new
    instance and an empty error text when the SDK resolves; when the SDK
    rejects it ends in the error state with the error's message (or
    "Unknown error" for a thrown non-error) and keeps whatever instance
    was there before. *)
Theorem initialize_never_rejects (sdk : js_result Z) (h : FhevmHook.hook) :
  let h' := (run (FhevmHook.initialize sdk) h).1 in
  settles (FhevmHook.initialize sdk) h = Resolved tt
  /\ (run (FhevmHook.initialize sdk) h).2 = [FhevmHook.E_initializeFheInstance]
  /\ match sdk with
     | Resolved inst =>
         FhevmHook.status h' = fhe_ready
         /\ FhevmHook.instance h' = Some inst
         /\ FhevmHook.error h' = Some ""
     | Rejected err =>
         FhevmHook.status h' = fhe_error
         /\ FhevmHook.instance h' = FhevmHook.instance h
         /\ FhevmHook.error h'
            = (if is_Error err then message err else Some "Unknown error")
     end.
Proof.
  destruct sdk as [inst | err]; cbn; auto.
Qed.

Lemma hook_invariant_step (h : FhevmHook.hook) (op : FhevmHook.hook_op) :
  let h' := FhevmHook.apply_op h op in
  (FhevmHook.status h' = fhe_ready -> is_Some (FhevmHook.instance h'))
  /\ (FhevmHook.status h' = fhe_idle ->
      FhevmHook.instance h' = None /\ FhevmHook.error h' = Some "")
  /\ FhevmHook.status h' <> fhe_loading.
Proof.
  destruct op as [[inst | err] |]; cbn; repeat split; try discriminate; eauto.
Qed.

(** X8. After any series of [initialize] and [reset] calls that have
    completed, the hook is consistent: when it reports ready an instance is
    present, when it is idle there is no instance and no error text, and it
    is never left loading. *)
Theorem hook_state_is_consistent (ops : list FhevmHook.hook_op) :
  let h := FhevmHook.after ops in
  (FhevmHook.isInitialized h = true -> is_Some (FhevmHook.instance h))
  /\ (FhevmHook.status h = fhe_idle ->
      FhevmHook.instance h = None /\ FhevmHook.error h = Some "")
  /\ FhevmHook.status h <> fhe_loading.
Proof.
  cbn zeta. unfold FhevmHook.after, FhevmHook.isInitialized.
  induction ops as [|op ops IH] using rev_ind.
  - cbn. repeat split; try discriminate.
  - clear IH. rewrite fold_left_app. cbn [fold_left].
    destruct (hook_invariant_step (fold_left FhevmHook.apply_op ops FhevmHook.mounted) op)
      as (Hready & Hidle & Hload).
    cbn zeta in Hready, Hidle, Hload.
    split; [|split]; [|exact Hidle | exact Hload].
    intros Hr. apply Hready.
    destruct (FhevmHook.status (FhevmHook.apply_op _ op)); try discriminate. reflexivity.
Qed.

(** A failed re-initialisation keeps the instance of the earlier one. *)
Example stale_instance_after_failed_initialize :
  let h := FhevmHook.after
             [FhevmHook.Initialize (Resolved 5%Z);
              FhevmHook.Initialize (Rejected (Error "network"))] in
  FhevmHook.status h = fhe_error /\ FhevmHook.instance h = Some 5%Z.
Proof. cbn. auto. Qed.

(** ** The wallet dialog *)

(** X9. A click on a wallet never leaves the dialog connecting and never
    rejects.  When the dialog is closed no error is left in it, and
    [onConnect] had been called once for that wallet and had resolved
    before [onClose] was called; when it is not closed, the error of the
    dialog is the message of what was thrown (or "Failed to connect wallet"
    for a thrown non-error). *)
Theorem wallet_click_outcome (win : WalletModal.window) (onConnect : js_result unit)
    (w : WalletModal.wallet) (m : WalletModal.modal) :
  let r := run (WalletModal.handleWalletClick win onConnect w) m in
  WalletModal.isConnecting r.1 = false
  /\ settles (WalletModal.handleWalletClick win onConnect w) m = Resolved tt
  /\ (In WalletModal.E_onClose r.2 ->
      WalletModal.error r.1 = None
      /\ r.2 = [WalletModal.E_onClose; WalletModal.E_onConnect w]
      /\ onConnect = Resolved tt)
  /\ (~ In WalletModal.E_onClose r.2 ->
      exists err,
        (WalletModal.connect win onConnect w (m, [])).1 = Threw err
        /\ WalletModal.error r.1
           = (if is_Error err then message err else Some "Failed to connect wallet")).
Proof.
  destruct w, win as [[p|] okxw], onConnect as [[]|err]; try destruct okxw;
    cbn; (split; [reflexivity|]); (split; [reflexivity|]); split; intros H;
    try (exfalso; cbn in H; intuition discriminate);
    try (repeat split; reflexivity);
    try (eexists; split; reflexivity).
Qed.

(** X10. A button the dialog shows as installed never ends in a
    "not installed" error: for every wallet but WalletConnect the click
    reaches [onConnect]; WalletConnect, which is always shown as installed,
    never reaches it and always ends with its "coming soon" error. *)
Theorem installed_wallet_is_attempted (win : WalletModal.window)
    (onConnect : js_result unit) (w : WalletModal.wallet) (m : WalletModal.modal) :
  WalletModal.installed win w = true ->
  let r := run (WalletModal.handleWalletClick win onConnect w) m in
  match w with
  | WalletModal.walletconnect =>
      r.2 = [] /\ WalletModal.error r.1 = Some "WalletConnect integration coming soon"
  | _ => In (WalletModal.E_onConnect w) r.2
  end.
Proof.
  destruct w, win as [[p|] okxw], onConnect as [[]|err]; try destruct okxw;
    cbn; intros Hinst; try discriminate; auto.
Qed.

Lemma installed_wallet_is_attempted_witness :
  let win := {| WalletModal.ethereum :=
                  Some {| WalletModal.isMetaMask := true;
                          WalletModal.isCoinbaseWallet := false;
                          WalletModal.isTrust := false |};
                WalletModal.okxwallet := false |} in
  let m := {| WalletModal.isConnecting := false; WalletModal.error := None |} in
  In (WalletModal.E_onConnect WalletModal.metamask)
     (run (WalletModal.handleWalletClick win (Resolved tt) WalletModal.metamask) m).2.
Proof.
  exact (installed_wallet_is_attempted
           {| WalletModal.ethereum :=
                Some {| WalletModal.isMetaMask := true;
                        WalletModal.isCoinbaseWallet := false;
                        WalletModal.isTrust := false |};
              WalletModal.okxwallet := false |}
           (Resolved tt) WalletModal.metamask
           {| WalletModal.isConnecting := false; WalletModal.error := None |}
           eq_refl).
Defined.

(** X11. The page passes [handleWalletConnect] to the dialog as
    [onConnect].  That handler never rejects: a failed connection is turned
    into the page's error message.  So a click on an installed wallet other
    than WalletConnect always closes the dialog without an error in it, also
    when the connection failed, and the failure is then shown on the page. *)
Theorem dialog_closes_even_when_connection_fails (win : WalletModal.window)
    (connectWallet : js_result unit) (w : WalletModal.wallet)
    (m : WalletModal.modal) (p : page) :
  WalletModal.installed win w = true ->
  w <> WalletModal.walletconnect ->
  let onConnect := settles (PageView.handleWalletConnect connectWallet) p in
  let r := run (WalletModal.handleWalletClick win onConnect w) m in
  let p' := (run (PageView.handleWalletConnect connectWallet) p).1 in
  onConnect = Resolved tt
  /\ In WalletModal.E_onClose r.2
  /\ WalletModal.error r.1 = None
  /\ match connectWallet with
     | Resolved _ => p' = p
     | Rejected err =>
         errorMessage p'
         = (if is_Error err then message err else Some "Unable to connect wallet.")
     end.
Proof.
  intros Hinst Hw.
  destruct w, win as [[pr|] okxw], connectWallet as [[]|err]; try destruct okxw;
    try discriminate; try contradiction;
    cbn; repeat split; auto; now destruct p.
Qed.

Lemma dialog_closes_even_when_connection_fails_witness :
  let win := {| WalletModal.ethereum := None; WalletModal.okxwallet := true |} in
  let m := {| WalletModal.isConnecting := false; WalletModal.error := None |} in
  let connectWallet := Rejected (Error "User rejected the request.") in
  let onConnect := settles (PageView.handleWalletConnect connectWallet) demo_page in
  let r := run (WalletModal.handleWalletClick win onConnect WalletModal.okx) m in
  let p' := (run (PageView.handleWalletConnect connectWallet) demo_page).1 in
  onConnect = Resolved tt
  /\ In WalletModal.E_onClose r.2
  /\ WalletModal.error r.1 = None
  /\ errorMessage p' = Some "User rejected the request.".
Proof.
  exact (dialog_closes_even_when_connection_fails
           {| WalletModal.ethereum := None; WalletModal.okxwallet := true |}
           (Rejected (Error "User rejected the request.")) WalletModal.okx
           {| WalletModal.isConnecting := false; WalletModal.error := None |}
           demo_page eq_refl ltac:(discriminate)).
Defined.

(** ** The timeline *)

(** X12. For every timeline state and each of the four steps shown, the
    step is marked active exactly when it is the step of the current phase;
    in the idle state every step is idle, in the complete state every step
    is done, and in a phase the steps before the active one are done and
    those after it upcoming. *)
Theorem timeline_marks_the_current_phase (ts : TimelineState) (i : Z) :
  (0 <= i < 4)%Z ->
  (PageView.stepStatus ts i = PageView.s_active
   <-> PageView.TIMELINE_STEPS !! Z.to_nat i = Some ts)
  /\ (ts = t_idle -> PageView.stepStatus ts i = PageView.s_idle)
  /\ (ts = t_complete -> PageView.stepStatus ts i = PageView.s_done)
  /\ (forall j, (0 <= j < 4)%Z -> PageView.stepStatus ts j = PageView.s_active ->
        ((i < j)%Z -> PageView.stepStatus ts i = PageView.s_done)
        /\ ((j < i)%Z -> PageView.stepStatus ts i = PageView.s_upcoming)).
Proof.
  intros Hi.
  assert (i = 0 \/ i = 1 \/ i = 2 \/ i = 3)%Z as Hcases by lia.
  split; [|split; [|split]].
  - destruct Hcases as [-> | [-> | [-> | ->]]]; destruct ts; cbn;
      split; intros H; try discriminate; reflexivity.
  - intros ->. reflexivity.
  - intros ->. destruct Hcases as [-> | [-> | [-> | ->]]]; reflexivity.
  - intros j Hj.
    assert (j = 0 \/ j = 1 \/ j = 2 \/ j = 3)%Z as Hjc by lia.
    destruct Hcases as [-> | [-> | [-> | ->]]];
      destruct Hjc as [-> | [-> | [-> | ->]]];
      destruct ts; cbn; intros Hact; try discriminate;
      split; intros Hlt; try lia; reflexivity.
Qed.

Lemma timeline_marks_the_current_phase_witness :
  (PageView.stepStatus t_process 2 = PageView.s_active
   <-> PageView.TIMELINE_STEPS !! Z.to_nat 2 = Some t_process)
  /\ (t_process = t_idle -> PageView.stepStatus t_process 2 = PageView.s_idle)
  /\ (t_process = t_complete -> PageView.stepStatus t_process 2 = PageView.s_done)
  /\ (forall j, (0 <= j < 4)%Z ->
        PageView.stepStatus t_process j = PageView.s_active ->
        ((2 < j)%Z -> PageView.stepStatus t_process 2 = PageView.s_done)
        /\ ((j < 2)%Z -> PageView.stepStatus t_process 2 = PageView.s_upcoming)).
Proof.
  apply (timeline_marks_the_current_phase t_process 2). lia.
Defined.

(** ** Loading the last result *)

(** X13. [handleLoadHistory] does nothing at all unless the wallet is
    ready, the network is Sepolia and the contract is configured: the state
    is left as it was, no call is made and no message is set. *)
Theorem load_history_is_silent_when_not_ready (f : form) (o : oracle)
    (lastEligibility : js_result (string * Z)) (v : PageView.view) :
  walletReady f && onSepolia f && isContractConfigured f = false ->
  run (PageView.handleLoadHistory f o lastEligibility) v = (v, []).
Proof.
  intros H. unfold run, PageView.handleLoadHistory.
  destruct (walletReady f), (onSepolia f), (isContractConfigured f);
    try discriminate; reflexivity.
Qed.

Lemma load_history_is_silent_when_not_ready_witness :
  run (PageView.handleLoadHistory
         {| age := []; hasHistory := None; hasChronic := None;
            hasLifestyleRisk := None; walletReady := true; onSepolia := true;
            isContractConfigured := false; fheStatus := fhe_ready |}
         demo_oracle (Resolved (PageView.ZeroHash, 0))) PageView.demo_view
  = (PageView.demo_view, []).
Proof.
  apply load_history_is_silent_when_not_ready. reflexivity.
Defined.

Ltac history_ready Hw Hs Hc :=
  unfold run, settles, PageView.handleLoadHistory;
  rewrite Hw, Hs, Hc; cbn [negb orb].

(** X14. When the contract answers the zero handle (as the zero hash or as
    the zero address), [handleLoadHistory] reports that nothing is stored
    and asks for no decryption: the message is set, no result is shown, the
    timeline is idle, the inputs are cleared and the loading flag is
    down. *)
Theorem load_history_reports_no_record (f : form) (o : oracle)
    (h : string) (t : Z) (v : PageView.view) :
  walletReady f = true -> onSepolia f = true -> isContractConfigured f = true ->
  o_ethereum o = true -> o_getSigner o = Resolved tt ->
  h = PageView.ZeroHash \/ h = PageView.ZERO_ADDRESS ->
  let r := run (PageView.handleLoadHistory f o (Resolved (h, t))) v in
  r.2 = [PageView.H_getLastEligibility; PageView.H_getSigner]
  /\ errorMessage (PageView.v_page r.1)
     = Some "No encrypted result stored for this wallet yet."
  /\ evaluationResult (PageView.v_page r.1) = None
  /\ successMessage (PageView.v_page r.1) = None
  /\ timelineState (PageView.v_page r.1) = t_idle
  /\ PageView.isFetchingHistory r.1 = false
  /\ PageView.v_age r.1 = []
  /\ PageView.v_hasHistory r.1 = None
  /\ PageView.v_hasChronic r.1 = None
  /\ PageView.v_hasLifestyleRisk r.1 = None.
Proof.
  intros Hw Hs Hc He Hg Hz. history_ready Hw Hs Hc.
  unfold ttry_finally, ttry_catch, tbind, tawait, tpure, tthrow.
  rewrite He, Hg. destruct Hz as [-> | ->]; cbn; repeat split.
Qed.

Lemma load_history_reports_no_record_witness :
  let r := run (PageView.handleLoadHistory demo_form demo_oracle
                  (Resolved (PageView.ZeroHash, 0))) PageView.demo_view in
  r.2 = [PageView.H_getLastEligibility; PageView.H_getSigner]
  /\ errorMessage (PageView.v_page r.1)
     = Some "No encrypted result stored for this wallet yet."
  /\ evaluationResult (PageView.v_page r.1) = None
  /\ successMessage (PageView.v_page r.1) = None
  /\ timelineState (PageView.v_page r.1) = t_idle
  /\ PageView.isFetchingHistory r.1 = false
  /\ PageView.v_age r.1 = []
  /\ PageView.v_hasHistory r.1 = None
  /\ PageView.v_hasChronic r.1 = None
  /\ PageView.v_hasLifestyleRisk r.1 = None.
Proof.
  apply (load_history_reports_no_record demo_form demo_oracle PageView.ZeroHash 0
           PageView.demo_view); try reflexivity.
  left. reflexivity.
Defined.

(** X15. Past its guard, [handleLoadHistory] never rejects, always clears
    the four inputs and always ends with the loading flag down.  Decryption
    is asked for only after the contract answered a nonzero handle.  The run
    ends either complete, and then the contract had answered, the
    decryption had resolved, and the page shows that handle, [Number] of the
    contract's timestamp and [Number] of the decrypted value (the nearest
    double: exact below 2^53, rounded above), with no transaction hash; or
    idle with no result and no success message shown. *)
Theorem load_history_outcome (f : form) (o : oracle)
    (lastEligibility : js_result (string * Z)) (v : PageView.view) :
  walletReady f = true -> onSepolia f = true -> isContractConfigured f = true ->
  let r := run (PageView.handleLoadHistory f o lastEligibility) v in
  let p' := PageView.v_page r.1 in
  settles (PageView.handleLoadHistory f o lastEligibility) v = Resolved tt
  /\ PageView.isFetchingHistory r.1 = false
  /\ (PageView.v_age r.1 = [] /\ PageView.v_hasHistory r.1 = None
      /\ PageView.v_hasChronic r.1 = None /\ PageView.v_hasLifestyleRisk r.1 = None)
  /\ (In PageView.H_decrypt r.2 ->
      exists h t, lastEligibility = Resolved (h, t)
                  /\ h <> PageView.ZeroHash /\ h <> PageView.ZERO_ADDRESS)
  /\ ((timelineState p' = t_complete
       /\ errorMessage p' = None
       /\ successMessage p' = Some "Loaded your most recent encrypted decision from chain."
       /\ exists h t d,
            lastEligibility = Resolved (h, t) /\ o_decrypt o = Resolved d
            /\ evaluationResult p'
               = Some {| category := Number d; handle := h;
                         timestamp := Some (Number t); txHash := None |})
      \/ (timelineState p' = t_idle
          /\ evaluationResult p' = None
          /\ successMessage p' = None)).
Proof.
  intros Hw Hs Hc. history_ready Hw Hs Hc.
  unfold ttry_finally, ttry_catch, tbind, tawait, tpure, tthrow.
  destruct (o_ethereum o); cbn [negb].
  2:{ cbn. repeat split; try (intros []; discriminate || contradiction); auto. }
  destruct (o_getSigner o) as [[]|e1].
  2:{ cbn. repeat split; try (intros [H|[]]; discriminate); auto. }
  destruct lastEligibility as [[h t]|e2].
  2:{ cbn. repeat split; try (intros [H|[H|[]]]; discriminate); auto. }
  cbn [fst snd].
  destruct (String.eqb_spec h PageView.ZERO_ADDRESS) as [-> | Hna].
  { cbn. repeat split; try (intros [H|[H|[]]]; discriminate); auto. }
  destruct (String.eqb_spec h PageView.ZeroHash) as [-> | Hnz].
  { cbn. repeat split; try (intros [H|[H|[]]]; discriminate); auto. }
  cbn [orb].
  destruct (o_decrypt o) as [d|e3]; cbn.
  - repeat split; eauto 10.
  - repeat split; eauto 10.
Qed.

Lemma load_history_outcome_witness :
  let r := run (PageView.handleLoadHistory demo_form demo_oracle
                  (Resolved ("0x13", 1700000000))) PageView.demo_view in
  let p' := PageView.v_page r.1 in
  settles (PageView.handleLoadHistory demo_form demo_oracle
             (Resolved ("0x13", 1700000000))) PageView.demo_view = Resolved tt
  /\ PageView.isFetchingHistory r.1 = false
  /\ (PageView.v_age r.1 = [] /\ PageView.v_hasHistory r.1 = None
      /\ PageView.v_hasChronic r.1 = None /\ PageView.v_hasLifestyleRisk r.1 = None)
  /\ (In PageView.H_decrypt r.2 ->
      exists h t, Resolved ("0x13", 1700000000) = Resolved (h, t)
                  /\ h <> PageView.ZeroHash /\ h <> PageView.ZERO_ADDRESS)
  /\ ((timelineState p' = t_complete
       /\ errorMessage p' = None
       /\ successMessage p' = Some "Loaded your most recent encrypted decision from chain."
       /\ exists h t d,
            Resolved ("0x13", 1700000000) = Resolved (h, t)
            /\ o_decrypt demo_oracle = Resolved d
            /\ evaluationResult p'
               = Some {| category := Number d; handle := h;
                         timestamp := Some (Number t); txHash := None |})
      \/ (timelineState p' = t_idle
          /\ evaluationResult p' = None
          /\ successMessage p' = None)).
Proof.
  apply (load_history_outcome demo_form demo_oracle (Resolved ("0x13", 1700000000))
           PageView.demo_view); reflexivity.
Defined.

(** ** More on [handleSubmit] *)

Import HandlerSpec.

Lemma submit_call_is_no_side_call eff :
  In eff submit_calls ->
  eff <> E_initializeFhe /\ eff <> E_switchChain /\ eff <> E_addChain.
Proof.
  cbn. intros H. repeat split; intros ->;
    repeat (destruct H as [H | H]; [discriminate|]); exact H.
Qed.

Lemma is_empty_true (s : JSString.jsstring) : JSString.is_empty s = true <-> s = [].
Proof. destruct s; split; intros H; try reflexivity; discriminate. Qed.

Lemma is_empty_false (s : JSString.jsstring) : JSString.is_empty s = false <-> s <> [].
Proof. destruct s; split; intros H; try reflexivity; try discriminate; congruence. Qed.

Ltac on t := destruct t eqn:?; cbv beta iota in *.

(** What is left of a run once its outcome is known. *)
Ltac settle_ifs H :=
  repeat match type of H with
         | context [if ?b then _ else _] => destruct b eqn:?; cbv beta iota in H
         end.

Ltac contra_validation :=
  match goal with
  | V : passes_validation _ |- _ =>
      destruct V as [? ? ? Hne ? ? ? (n & Hn & Hrange) [? ?] [? ?] [? ?]];
      first
        [ congruence
        | exfalso; apply Hne; apply is_empty_true; assumption
        | match goal with
          | P : JSString.parseInt _ = Some _ |- _ =>
              rewrite P in Hn; injection Hn as ->
          end;
          repeat match goal with
                 | L : (_ <=? _)%Z = true |- _ => apply Z.leb_le in L
                 | L : (_ <? _)%Z = true |- _ => apply Z.ltb_lt in L
                 end; lia ]
  end.

Ltac contra_resolve :=
  match goal with
  | A : all_resolve _ |- _ =>
      destruct A as [[? ?] [? ?] [? ?] [? ?] [? ?] [? ?] [? ?] [? ?] [? ?] [? ?]];
      congruence
  end.

Ltac prove_validation :=
  split; [split; try assumption;
          [ apply is_empty_false; assumption
          | eexists; split; [eassumption|];
            repeat match goal with
                   | L : (_ <=? _)%Z = false |- _ => apply Z.leb_gt in L
                   | L : (_ <? _)%Z = false |- _ => apply Z.ltb_ge in L
                   end; lia
          | eauto | eauto | eauto ]
        | split; reflexivity ].

Ltac end_goal :=
  first [ reflexivity | (eexists; reflexivity) | (left; reflexivity) | (right; reflexivity) ].

Ltac end_state :=
  first [ solve [right; repeat split; end_goal]
        | solve [left; repeat split; end_goal] ].

Ltac off_network :=
  intros;
  first [ congruence
        | exists [E_switchChain; E_addChain]; reflexivity
        | exists [E_addChain]; reflexivity
        | exists []; reflexivity ].

Ltac on_network :=
  let Hnet := fresh "Hnet" in
  intros Hnet;
  first [ solve [destruct Hnet; congruence]
        | cbn [rev app]; eexists; reflexivity ].

Ltac validation_needed :=
  let eff := fresh "eff" in
  let Hs := fresh "Hs" in
  let Ht := fresh "Ht" in
  intros (eff & Hs & Ht);
  first [ solve [prove_validation]
        | solve [ exfalso;
                  destruct (submit_call_is_no_side_call _ Hs) as (? & ? & ?);
                  cbn in Ht; intuition congruence ] ].

Ltac validation_enough :=
  intros; first [ congruence | solve [cbn; tauto] | solve [contra_validation] ].

Ltac success_only_if :=
  let Hc := fresh "Hc" in
  intros Hc;
  first [ discriminate Hc
        | solve [ repeat match goal with u : unit |- _ => destruct u end;
                  do 3 eexists; repeat split;
                  first [ reflexivity | eexists; reflexivity
                        | eexists; eassumption ] ] ].

Ltac success_if :=
  intros;
  first [ reflexivity | congruence | solve [contra_resolve] | solve [contra_validation] ].

Ltac leaf Hr :=
  settle_ifs Hr; subst;
  cbv beta iota delta [fst snd init_calls submit_calls switch_calls];
  repeat match goal with
         | E : fheStatus _ = _ |- _ => rewrite E
         end;
  (split; [end_state|]);
  (split; [off_network|]);
  (split; [on_network|]);
  (split; [validation_needed|]);
  (split; [validation_enough|]);
  (split; [success_only_if|]);
  success_if.

Lemma handleSubmit_characterised (f : form) (o : oracle) (p : page) :
  let r := handleSubmit f o p in
  (* the state at the end *)
  ((timelineState r.1 = t_complete
    /\ errorMessage r.1 = None
    /\ successMessage r.1 = Some "Eligibility result decrypted securely. Details below."
    /\ isSubmitting r.1 = false
    /\ is_Some (evaluationResult r.1))
   \/ (timelineState r.1 = t_idle
       /\ is_Some (errorMessage r.1)
       /\ successMessage r.1 = None
       /\ evaluationResult r.1 = evaluationResult p
       /\ (isSubmitting r.1 = false \/ isSubmitting r.1 = isSubmitting p)))
  (* the calls, off and on the network *)
  /\ (walletReady f = true -> onSepolia f = false -> rev r.2 `prefix_of` switch_calls)
  /\ (walletReady f = false \/ onSepolia f = true ->
      rev r.2 `prefix_of` (init_calls f ++ submit_calls)%list)
  (* validation *)
  /\ ((exists eff, In eff submit_calls /\ In eff r.2) ->
      passes_validation f /\ o_fheInstance o = true /\ o_ethereum o = true)
  /\ (passes_validation f -> o_fheInstance o = true -> o_ethereum o = true ->
      In E_getSigner r.2)
  (* success *)
  /\ (timelineState r.1 = t_complete ->
      exists h rc d,
        o_staticCall o = Resolved h /\ o_send o = Resolved tt
        /\ o_wait o = Resolved rc /\ o_decrypt o = Resolved d
        /\ evaluationResult r.1
           = Some {| category := Number d; handle := h;
                     timestamp := Some (Number (default (o_now o) (blockTimestamp rc)));
                     txHash := Some (hash rc) |}
        /\ rev r.2 = (init_calls f ++ submit_calls)%list
        /\ all_resolve o)
  /\ (passes_validation f -> o_fheInstance o = true -> o_ethereum o = true ->
      all_resolve o -> timelineState r.1 = t_complete).
Proof.
  cbv zeta. remember (handleSubmit f o p) as r eqn:Hr.
  handler_norm.
  on (walletReady f); [|leaf Hr].
  on (onSepolia f).
  2:{ on (o_ethereum o); [|leaf Hr].
      on (o_switchChain o); [leaf Hr|].
      on (code_is (CodeNumber 4902) err); [|leaf Hr].
      on (o_addChain o); leaf Hr. }
  on (isContractConfigured f); [|leaf Hr].
  on (JSString.is_empty (JSString.trim (age f))); [leaf Hr|].
  on (JSString.includes (JSString.lit ".") (JSString.trim (age f))); [leaf Hr|].
  on ((1 <? List.length (JSString.trim (age f)))%nat
      && JSString.startsWith (JSString.lit "0") (JSString.trim (age f)));
    [leaf Hr|].
  on (JSString.includes (JSString.lit "-") (JSString.trim (age f))); [leaf Hr|].
  on (JSString.parseInt (JSString.trim (age f))); [|leaf Hr].
  on (z <=? 0)%Z; [leaf Hr|].
  on (150 <? z)%Z; [leaf Hr|].
  on (hasHistory f); [|leaf Hr].
  on (hasChronic f); [|leaf Hr].
  on (hasLifestyleRisk f); [|leaf Hr].
  all: on (fheStatus f).
  all: (on (o_fheInstance o); [|leaf Hr]).
  all: (on (o_ethereum o); [|leaf Hr]).
  all: (on (o_getSigner o); [|leaf Hr]).
  all: (on (o_getAddress o); [|leaf Hr]).
  all: (on (o_encryptAge o); [|leaf Hr]).
  all: (on (o_encryptHistory o); [|leaf Hr]).
  all: (on (o_encryptChronic o); [|leaf Hr]).
  all: (on (o_encryptLifestyle o); [|leaf Hr]).
  all: (on (o_staticCall o); [|leaf Hr]).
  all: (on (o_send o); [|leaf Hr]).
  all: (on (o_wait o); [|leaf Hr]).
  all: (on (o_decrypt o); leaf Hr).
Qed.

Lemma NoDup_submit_calls : NoDup (E_initializeFhe :: submit_calls).
Proof.
  unfold submit_calls.
  repeat (constructor; [rewrite ?elem_of_cons, elem_of_nil; intuition discriminate|]).
  constructor.
Qed.

Lemma NoDup_switch_calls : NoDup switch_calls.
Proof.
  unfold switch_calls.
  repeat (constructor; [rewrite ?elem_of_cons, elem_of_nil; intuition discriminate|]).
  constructor.
Qed.

Lemma NoDup_prefix {A} (l1 l2 : list A) : l1 `prefix_of` l2 -> NoDup l2 -> NoDup l1.
Proof. intros [k ->] H. now apply NoDup_app in H as (H & _ & _). Qed.

Lemma NoDup_init_submit f : NoDup (init_calls f ++ submit_calls).
Proof.
  pose proof NoDup_submit_calls as H. unfold init_calls.
  destruct (fheStatus f); cbn [app]; try exact H; now apply NoDup_cons in H as [_ H].
Qed.

(** X16. Every run of [handleSubmit] ends either complete, with the
    success message, no error and a result, or idle, with an error message,
    no success message and the result that was shown before left untouched;
    it never ends in one of the four phases, and it never turns the
    submitting flag on for good. *)
Theorem handleSubmit_ends_idle_or_complete (f : form) (o : oracle) (p : page) :
  let p' := (handleSubmit f o p).1 in
  (timelineState p' = t_complete
   /\ errorMessage p' = None
   /\ successMessage p' = Some "Eligibility result decrypted securely. Details below."
   /\ isSubmitting p' = false
   /\ is_Some (evaluationResult p'))
  \/ (timelineState p' = t_idle
      /\ is_Some (errorMessage p')
      /\ successMessage p' = None
      /\ evaluationResult p' = evaluationResult p
      /\ (isSubmitting p' = false \/ isSubmitting p' = isSubmitting p)).
Proof. exact (proj1 (handleSubmit_characterised f o p)). Qed.

(** X17. The external calls of a run are made in one fixed order and each
    at most once.  Off Sepolia the run asks for the network switch, then
    possibly for adding the chain, and nothing else; otherwise the calls
    are an initial segment of: the FHE initialisation (only when the hook
    is idle or failed), signer, address, the four encryptions, the static
    call, the transaction, its receipt, the decryption. *)
Theorem handleSubmit_calls_in_order (f : form) (o : oracle) (p : page) :
  let calls := rev (handleSubmit f o p).2 in
  NoDup calls
  /\ (walletReady f = true -> onSepolia f = false -> calls `prefix_of` switch_calls)
  /\ (walletReady f = false \/ onSepolia f = true ->
      calls `prefix_of` (init_calls f ++ submit_calls)%list).
Proof.
  destruct (handleSubmit_characterised f o p) as (_ & Hoff & Hon & _).
  cbv zeta in *. split; [|split; assumption].
  destruct (walletReady f) eqn:Hw; [destruct (onSepolia f) eqn:Hs|].
  - eapply NoDup_prefix; [apply Hon; auto | apply NoDup_init_submit].
  - eapply NoDup_prefix; [apply Hoff; auto | apply NoDup_switch_calls].
  - eapply NoDup_prefix; [apply Hon; auto | apply NoDup_init_submit].
Qed.

(** X18. No call of a submission (signer, address, encryption, static call,
    transaction, receipt, decryption) is ever made unless the form passes
    every check of the handler ([passes_validation]): wallet ready, Sepolia,
    contract configured; the trimmed age not empty, with no "." and no "-"
    in it, not starting with "0" unless it is that one character, and
    [parseInt] reading a number from 1 to 150 off its start; all three
    questions answered; and the FHE instance and the provider are there.
    The age check is as lenient as [parseInt]: what follows the digits is
    not looked at and a leading "+" is a sign, so "+5", "12abc" and "1e2"
    pass and are submitted. *)
Theorem no_submission_call_without_valid_form (f : form) (o : oracle) (p : page)
    (eff : effect) :
  In eff submit_calls ->
  In eff (handleSubmit f o p).2 ->
  passes_validation f /\ o_fheInstance o = true /\ o_ethereum o = true.
Proof.
  intros Hs Ht.
  destruct (handleSubmit_characterised f o p) as (_ & _ & _ & Hv & _).
  apply Hv. eauto.
Qed.

Lemma no_submission_call_without_valid_form_witness :
  passes_validation demo_form
  /\ o_fheInstance demo_oracle = true /\ o_ethereum demo_oracle = true.
Proof.
  apply (no_submission_call_without_valid_form demo_form demo_oracle demo_page
           E_sendTransaction).
  - cbn. tauto.
  - vm_compute. left. reflexivity.
Defined.

(** X19. A run ends complete exactly when the form passes every check of
    the handler ([passes_validation]), the FHE instance and the provider are
    there, and every awaited call answers.  The result shown is then
    [Number] of the decrypted value, the handle returned by the static call,
    [Number] of the receipt's timestamp (of the clock when the receipt has
    none) and the receipt's hash, and all ten calls have been made.
    [Number] is the nearest double: exact below 2^53, rounded above. *)
Theorem handleSubmit_completes_exactly_when (f : form) (o : oracle) (p : page) :
  let r := handleSubmit f o p in
  (timelineState r.1 = t_complete
   <-> passes_validation f /\ o_fheInstance o = true /\ o_ethereum o = true
       /\ all_resolve o)
  /\ (timelineState r.1 = t_complete ->
      exists h rc d,
        o_staticCall o = Resolved h /\ o_wait o = Resolved rc /\ o_decrypt o = Resolved d
        /\ evaluationResult r.1
           = Some {| category := Number d; handle := h;
                     timestamp := Some (Number (default (o_now o) (blockTimestamp rc)));
                     txHash := Some (hash rc) |}
        /\ rev r.2 = (init_calls f ++ submit_calls)%list).
Proof.
  destruct (handleSubmit_characterised f o p) as (_ & _ & _ & Hv & _ & Hs & Hif).
  cbv zeta in *. split; [split|].
  - intros Hc. destruct (Hs Hc) as (h & rc & d & _ & _ & _ & _ & _ & Hcalls & Hall).
    assert (In E_getSigner (handleSubmit f o p).2) as Hin.
    { apply in_rev. rewrite Hcalls. apply in_or_app. right. cbn. tauto. }
    destruct Hv as (Hval & Hi & He); [exists E_getSigner; split; [cbn; tauto | exact Hin]|].
    auto.
  - intros (Hval & Hi & He & Hall). now apply Hif.
  - intros Hc. destruct (Hs Hc) as (h & rc & d & H1 & _ & H3 & H4 & H5 & H6 & _).
    eauto 10.
Qed.

(** Ages the handler accepts although they are no plain whole numbers: a
    sign, trailing letters, an exponent, and white space that is no ASCII
    blank (here a no-break space in front). *)
Example lenient_ages_are_submitted :
  Forall (fun a =>
            timelineState
              (handleSubmit
                 {| age := a; hasHistory := Some false; hasChronic := Some false;
                    hasLifestyleRisk := Some false; walletReady := true;
                    onSepolia := true; isContractConfigured := true;
                    fheStatus := fhe_ready |}
                 demo_oracle_signing demo_page).1 = t_complete)
    [JSString.lit "+5"; JSString.lit "12abc"; JSString.lit "1e2";
     (160 :: JSString.lit "30")%list].
Proof. repeat constructor. Qed.

(** Number is exact on integers below 2^53 in absolute value. *)
Lemma Number_exact (z : Z) : - 2 ^ 53 < z < 2 ^ 53 -> Number z = Finite z.
Proof.
  intros Hz. unfold Number, nearest_double.
  destruct (Z.ltb_spec (Z.abs z) (2 ^ 53)) as [_ | Hge]; [|lia].
  f_equal. lia.
Qed.
(** ** The handler and what the page shows *)

(** X20. After a run of [handleSubmit] the timeline shows no step in
    progress: either all four steps are idle or all four are done. *)
Theorem steps_after_submit_are_all_idle_or_all_done (f : form) (o : oracle) (p : page) :
  let ts := timelineState (handleSubmit f o p).1 in
  (forall i, PageView.stepStatus ts i = PageView.s_idle)
  \/ (forall i, 0 <= i < 4 -> PageView.stepStatus ts i = PageView.s_done).
Proof.
  destruct (handleSubmit_characterised f o p) as ([(Hc & _) | (Hi & _)] & _);
    cbv zeta in *.
  - right. intros i Hi. rewrite Hc. unfold PageView.stepStatus.
    change (PageView.activeStepIndex t_complete) with 4.
    destruct (Z.ltb_spec i 4); [reflexivity | lia].
  - left. intros i. rewrite Hi. reflexivity.
Qed.

(** X21. When the submit button is enabled, a click makes none of the
    side calls (no network switch, no adding of the chain, no FHE
    initialisation): its calls are an initial segment of the ten calls of a
    submission, and the submitting flag is down again when the run ends. *)
Theorem enabled_submit_makes_no_side_calls (f : form) (o : oracle) (p : page)
    (isDecrypting : bool) :
  PageView.submitDisabled f p isDecrypting = false ->
  rev (handleSubmit f o p).2 `prefix_of` submit_calls
  /\ isSubmitting (handleSubmit f o p).1 = false.
Proof.
  unfold PageView.submitDisabled. intros H.
  destruct (isSubmitting p) eqn:Hsub; [discriminate|].
  destruct isDecrypting; [discriminate|].
  destruct (walletReady f) eqn:Hw; [|discriminate].
  destruct (onSepolia f) eqn:Hs; [|discriminate].
  destruct (isContractConfigured f) eqn:Hc; [|discriminate].
  destruct (fheStatus f) eqn:Hf; try discriminate.
  destruct (handleSubmit_characterised f o p) as (Hend & _ & Hon & _).
  cbv zeta in *. split.
  - specialize (Hon (or_intror Hs)). unfold init_calls in Hon.
    rewrite Hf in Hon. exact Hon.
  - destruct Hend as [(_ & _ & _ & H' & _) | (_ & _ & _ & _ & [H' | H'])];
      congruence.
Qed.

Lemma enabled_submit_makes_no_side_calls_witness :
  rev (handleSubmit demo_form demo_oracle demo_page).2 `prefix_of` submit_calls
  /\ isSubmitting (handleSubmit demo_form demo_oracle demo_page).1 = false.
Proof.
  apply (enabled_submit_makes_no_side_calls demo_form demo_oracle demo_page false).
  reflexivity.
Defined.

(** X22. Off Sepolia a click never submits, whatever the wallet answers to
    the switch request.  Without a provider the message asks to install a
    wallet; when the switch (or, after error 4902, adding the chain)
    succeeds the message still asks to switch to Sepolia; when it fails the
    message says the switch could not be made. *)
Theorem off_sepolia_click_only_switches (f : form) (o : oracle) (p : page) :
  walletReady f = true -> onSepolia f = false ->
  let r := handleSubmit f o p in
  timelineState r.1 = t_idle
  /\ (forall eff, In eff r.2 -> eff = E_switchChain \/ eff = E_addChain)
  /\ errorMessage r.1
     = Some (if negb (o_ethereum o)
             then "No Ethereum provider found. Please install MetaMask or a compatible wallet."
             else
               match o_switchChain o, o_addChain o with
               | Resolved _, _ =>
                   "Switch to Sepolia testnet to run the secure pre-check."
               | Rejected err, Resolved _ =>
                   if code_is (CodeNumber 4902) err
                   then "Switch to Sepolia testnet to run the secure pre-check."
                   else "We could not switch networks automatically. Please choose Sepolia in your wallet."
               | Rejected _, Rejected _ =>
                   "We could not switch networks automatically. Please choose Sepolia in your wallet."
               end).
Proof.
  intros Hw Hs. cbv zeta. remember (handleSubmit f o p) as r eqn:Hr.
  handler_norm. rewrite Hw, Hs in Hr. cbv beta iota in Hr.
  destruct (o_ethereum o); cbv beta iota in *.
  2:{ subst r. cbn. intuition. }
  destruct (o_switchChain o) as [[]|err]; cbv beta iota in *.
  { subst r. cbn. intuition. }
  destruct (code_is (CodeNumber 4902) err); cbv beta iota in *.
  - destruct (o_addChain o) as [[]|err']; subst r; cbn; intuition.
  - destruct (o_addChain o) as [[]|err']; subst r; cbn; intuition.
Qed.

Lemma off_sepolia_click_only_switches_witness :
  let f := {| age := JSString.lit "30"; hasHistory := Some false; hasChronic := Some false;
              hasLifestyleRisk := Some false; walletReady := true;
              onSepolia := false; isContractConfigured := true;
              fheStatus := fhe_ready |} in
  let r := handleSubmit f demo_oracle demo_page in
  timelineState r.1 = t_idle
  /\ (forall eff, In eff r.2 -> eff = E_switchChain \/ eff = E_addChain)
  /\ errorMessage r.1
     = Some "Switch to Sepolia testnet to run the secure pre-check.".
Proof.
  cbv zeta.
  exact (off_sepolia_click_only_switches
           {| age := JSString.lit "30"; hasHistory := Some false; hasChronic := Some false;
              hasLifestyleRisk := Some false; walletReady := true;
              onSepolia := false; isContractConfigured := true;
              fheStatus := fhe_ready |} demo_oracle demo_page eq_refl eq_refl).
Defined.


(** With a blank in front the two can disagree: the handler trims the age
    before it looks for a leading zero, the field does not. *)
Example age_field_and_submit_disagree_on_blanks :
  let f := {| age := JSString.lit " 030"; hasHistory := Some false; hasChronic := Some false;
              hasLifestyleRisk := Some false; walletReady := true;
              onSepolia := true; isContractConfigured := true;
              fheStatus := fhe_ready |} in
  let p := {| timelineState := t_idle; errorMessage := Some "Please enter your age.";
              successMessage := None; isSubmitting := false;
              evaluationResult := None; ageInputError := true |} in
  errorMessage (run (E := effect) (PageView.ageOnChange (age f)) p).1 = None
  /\ (handleSubmit f demo_oracle p).2 = [].
Proof. vm_compute. split; reflexivity. Qed.
Ltac failure_leaf Hr Hfirst :=
  cbn [first_rejection] in Hfirst;
  first [ discriminate Hfirst
        | injection Hfirst as <- <-;
          unfold thrown_message, message_includes, in_signing_step in *;
          let HisE := fresh "HisE" in
          let Hmsg := fresh "Hmsg" in
          match goal with
          | |- context [is_Error ?e] =>
              destruct (is_Error e) eqn:HisE; destruct (message e) eqn:Hmsg
          end;
          cbv beta iota in *;
          repeat (match type of Hr with
                  | context [if ?b then _ else _] =>
                      destruct b eqn:?; cbv beta iota in Hr
                  end;
                  rewrite ?HisE, ?Hmsg in Hr; cbv beta iota in Hr);
          subst; cbn; repeat split; reflexivity ].

Ltac await_case t Hr Hfirst :=
  destruct t; cbv beta iota in Hr; [|failure_leaf Hr Hfirst].

(** X24. On a valid form with the FHE instance and the provider there,
    the run stops at the first awaited call that rejects: that call is the
    last one made, the timeline is back to idle and the submitting flag is
    down.  The message shown is the signature-rejection message when the
    static call or the transaction was refused by the user; otherwise it is
    the thrown error's own message (replaced by the rejection message when
    it contains "user rejected"), or the generic message when the thrown
    value is no [Error] or has no message. *)
Theorem first_failure_is_reported (f : form) (o : oracle) (p : page)
    (eff : effect) (err : js_error) :
  passes_validation f -> o_fheInstance o = true -> o_ethereum o = true ->
  first_rejection (rejections o) = Some (eff, err) ->
  let r := handleSubmit f o p in
  hd_error r.2 = Some eff
  /\ timelineState r.1 = t_idle
  /\ isSubmitting r.1 = false
  /\ errorMessage r.1
     = Some (if in_signing_step eff
                && (code_is (CodeNumber 4001) err
                    || code_is (CodeString "ACTION_REJECTED") err
                    || message_includes "user rejected" (message err))
             then "Transaction signature rejected. No data was sent."
             else
               match thrown_message err with
               | Some m => if includes "user rejected" m
                           then "Transaction rejected. No data was sent."
                           else m
               | None => "Something went wrong. Please try again."
               end).
Proof.
  intros V Hi He Hfirst. cbv zeta.
  remember (handleSubmit f o p) as r eqn:Hr. handler_norm.
  destruct V as [Hw Hs Hc Hne Hdot Hzero Hminus (n & Hn & Hrange) [a Ha] [b Hb] [c Hc']].
  rewrite Hw, Hs, Hc, Hdot, Hzero, Hminus, Hn, Ha, Hb, Hc', Hi, He in Hr.
  apply is_empty_false in Hne. rewrite Hne in Hr.
  destruct (Z.leb_spec n 0); [lia|]. destruct (Z.ltb_spec 150 n); [lia|].
  cbv beta iota in Hr.
  unfold rejections, rejection in Hfirst.
  destruct (fheStatus f); cbv beta iota in Hr.
  all: await_case (o_getSigner o) Hr Hfirst.
  all: await_case (o_getAddress o) Hr Hfirst.
  all: await_case (o_encryptAge o) Hr Hfirst.
  all: await_case (o_encryptHistory o) Hr Hfirst.
  all: await_case (o_encryptChronic o) Hr Hfirst.
  all: await_case (o_encryptLifestyle o) Hr Hfirst.
  all: await_case (o_staticCall o) Hr Hfirst.
  all: await_case (o_send o) Hr Hfirst.
  all: await_case (o_wait o) Hr Hfirst.
  all: await_case (o_decrypt o) Hr Hfirst.
  all: failure_leaf Hr Hfirst.
Qed.

Lemma first_failure_is_reported_witness :
  let r := handleSubmit demo_form demo_oracle demo_page in
  hd_error r.2 = Some E_sendTransaction
  /\ timelineState r.1 = t_idle
  /\ isSubmitting r.1 = false
  /\ errorMessage r.1 = Some "Transaction signature rejected. No data was sent.".
Proof.
  apply (first_failure_is_reported demo_form demo_oracle demo_page
           E_sendTransaction demo_rejection); try reflexivity.
  split; try reflexivity; try discriminate.
  - exists 30. split; [reflexivity | lia].
  - eexists; reflexivity.
  - eexists; reflexivity.
  - eexists; reflexivity.
Defined.
(** ** The page on top of the contract *)

(** X25. Whatever category a successful [checkEligibility] leaves under the
    returned handle, the page has content for it: its title is the one of
    that tag, and a run of [handleSubmit] that ends complete with that
    category decrypted renders the result panel. *)
Theorem contract_category_is_always_displayable verifyInput e s w h w' :
  call_checkEligibility verifyInput e s w = (Ok h, w') ->
  exists cat,
    FHE.ciphertexts (fhe w') !! h = Some (FHE.PUint8 cat)
    /\ PageView.title <$> PageView.CATEGORY_CONTENT !! cat
       = Some (if (cat =? CATEGORY_ELIGIBLE)%Z then "Eligible"
               else if (cat =? CATEGORY_MODERATE)%Z then "Moderate"
               else "Not Eligible")
    /\ forall f o p,
         o_decrypt o = Resolved cat ->
         timelineState (handleSubmit f o p).1 = t_complete ->
         PageView.showsResult (handleSubmit f o p).1 = true.
Proof.
  intros Hcall.
  destruct (checkEligibility_inv_full _ _ _ _ _ _ Hcall)
    as (c & _ & _ & _ & (cat & Hcat & Hthree) & ->).
  exists cat. split; [exact Hcat|].
  assert (is_Some (PageView.CATEGORY_CONTENT !! cat)) as [content Hcontent].
  { destruct Hthree as [-> | [-> | ->]]; eexists; reflexivity. }
  split.
  - destruct Hthree as [-> | [-> | ->]]; reflexivity.
  - intros f o p Hd Hc.
    destruct (handleSubmit_characterised f o p) as (_ & _ & _ & _ & _ & Hs & _).
    cbv zeta in Hs.
    destruct (Hs Hc) as (h' & rc & d & _ & _ & _ & Hd' & Hres & _).
    unfold PageView.showsResult, PageView.categoryInfo. rewrite Hres.
    cbn [category]. assert (d = cat) as -> by congruence.
    destruct Hthree as [-> | [-> | ->]]; reflexivity.
Qed.

Lemma contract_category_is_always_displayable_witness :
  exists cat,
    FHE.ciphertexts (fhe demo_after) !! 19 = Some (FHE.PUint8 cat)
    /\ PageView.title <$> PageView.CATEGORY_CONTENT !! cat
       = Some (if (cat =? CATEGORY_ELIGIBLE)%Z then "Eligible"
               else if (cat =? CATEGORY_MODERATE)%Z then "Moderate"
               else "Not Eligible")
    /\ forall f o p,
         o_decrypt o = Resolved cat ->
         timelineState (handleSubmit f o p).1 = t_complete ->
         PageView.showsResult (handleSubmit f o p).1 = true.
Proof.
  exact (contract_category_is_always_displayable demo_verify demo_env
           demo_submission (demo_world 30 false false false) 19 demo_after demo_call).
Defined.

(** X26. Loading the history of an account from a reachable state of the
    contract, taken with its history of calls that returned.  The bindings
    render the returned handle as a hex string, zero as the zero hash.  For
    an account none of whose calls returned, the page reports that nothing
    is stored and asks for no decryption.  For any other account it asks for
    the decryption and, when that resolves, shows [Number] of the decrypted
    value with the handle that the account's most recent successful call
    returned and [Number] of the timestamp of that call's block ([Number]
    is the nearest double: exact below 2^53, rounded above). *)
Theorem load_history_shows_the_last_evaluation verifyInput
    (evs : list evaluation) (w : world)
    (account : address) (encode : Z -> string) (f : form) (o : oracle)
    (v : PageView.view) (h t : Z) (w1 : world) :
  reached verifyInput evs w ->
  (forall z, encode z = PageView.ZeroHash <-> z = 0) ->
  (forall z, encode z <> PageView.ZERO_ADDRESS) ->
  walletReady f = true -> onSepolia f = true -> isContractConfigured f = true ->
  o_ethereum o = true -> resolved (o_getSigner o) ->
  getLastEligibility account w = (Ok (h, t), w1) ->
  let r := run (PageView.handleLoadHistory f o (Resolved (encode h, t))) v in
  let p' := PageView.v_page r.1 in
  match lastSuccessful account evs with
  | None =>
      (forall ev, In ev evs -> caller ev <> account)
      /\ errorMessage p' = Some "No encrypted result stored for this wallet yet."
      /\ evaluationResult p' = None
      /\ ~ In PageView.H_decrypt r.2
  | Some ev =>
      In ev evs /\ caller ev = account
      /\ hd_error r.2 = Some PageView.H_decrypt
      /\ forall d, o_decrypt o = Resolved d ->
           timelineState p' = t_complete
           /\ evaluationResult p'
              = Some {| category := Number d;
                        handle := encode (returned ev);
                        timestamp := Some (Number (evaluatedAt ev));
                        txHash := None |}
  end.
Proof.
  intros Hreach Hzero Haddr Hw Hs Hc He [[] Hg] Hget.
  rewrite getLastEligibility_eq in Hget.
  destruct (reachable_invariant _ _ (reached_reachable _ _ _ Hreach)) as [_ Hlog].
  specialize (Hlog account).
  rewrite (reached_log _ _ _ Hreach), lastEvaluation_map in Hlog.
  pose proof (lastSuccessful_None account evs) as Hnone.
  history_ready Hw Hs Hc.
  unfold ttry_finally, ttry_catch, tbind, tawait, tpure, tthrow.
  rewrite He, Hg. cbn [negb fst snd].
  destruct (lastSuccessful account evs) as [ev|] eqn:Hlast;
    cbn [fmap option_fmap option_map] in Hlog.
  - cbn [categoryHandle MediShieldPreCheck.timestamp] in Hlog.
    destruct Hlog as (Hcat & Hat & Hpos & _).
    rewrite Hcat, Hat in Hget. cbn [default from_option id] in Hget.
    rewrite (isInitialized_pos _ Hpos) in Hget.
    injection Hget as <- <- _.
    destruct (lastSuccessful_Some _ _ _ Hlast) as [Hin Hcaller].
    split; [exact Hin|]. split; [exact Hcaller|].
    destruct (String.eqb_spec (encode (returned ev)) PageView.ZERO_ADDRESS)
      as [Heq | _]; [now apply Haddr in Heq|].
    destruct (String.eqb_spec (encode (returned ev)) PageView.ZeroHash)
      as [Heq | _]; [apply Hzero in Heq; lia|].
    cbn [orb]. destruct (o_decrypt o) as [d|err]; cbn.
    + split; [reflexivity|]. intros d' [= <-]. split; reflexivity.
    + split; [reflexivity|]. intros d' [=].
  - destruct Hlog as (Hcat & Hat).
    rewrite Hcat, Hat in Hget. cbn in Hget. injection Hget as <- <- _.
    split; [now apply Hnone|].
    destruct (String.eqb_spec (encode 0) PageView.ZERO_ADDRESS)
      as [Heq | _]; [now apply Haddr in Heq|].
    destruct (String.eqb_spec (encode 0) PageView.ZeroHash)
      as [_ | Hne]; [|exfalso; apply Hne; now apply Hzero].
    cbn. repeat split. intros [H | [H | []]]; discriminate.
Qed.

Lemma demo_encode_zero z : demo_encode z = PageView.ZeroHash <-> z = 0.
Proof.
  unfold demo_encode. destruct (Z.eqb_spec z 0); split; try tauto; discriminate.
Qed.

Lemma demo_encode_no_address z : demo_encode z <> PageView.ZERO_ADDRESS.
Proof. unfold demo_encode. destruct (z =? 0)%Z; discriminate. Qed.

Lemma demo_getLastEligibility :
  getLastEligibility 7 demo_after = (Ok (19, 1700000000), demo_after).
Proof. vm_compute. reflexivity. Qed.

Lemma load_history_shows_the_last_evaluation_witness :
  let r := run (PageView.handleLoadHistory demo_form demo_oracle
                  (Resolved (demo_encode 19, 1700000000))) PageView.demo_view in
  let p' := PageView.v_page r.1 in
  let ev := {| caller := 7; returned := 19; evaluatedAt := 1700000000 |} in
  reached demo_verify demo_history demo_after
  /\ getLastEligibility 7 demo_after = (Ok (19, 1700000000), demo_after)
  /\ In ev demo_history /\ caller ev = 7
  /\ hd_error r.2 = Some PageView.H_decrypt
  /\ forall d, o_decrypt demo_oracle = Resolved d ->
       timelineState p' = t_complete
       /\ evaluationResult p'
          = Some {| category := Number d;
                    handle := demo_encode 19;
                    timestamp := Some (Number 1700000000);
                    txHash := None |}.
Proof.
  cbv zeta. split; [apply reached_demo_after|]. split; [apply demo_getLastEligibility|].
  exact (load_history_shows_the_last_evaluation demo_verify demo_history demo_after 7
           demo_encode demo_form demo_oracle PageView.demo_view
           19 1700000000 demo_after reached_demo_after
           demo_encode_zero demo_encode_no_address eq_refl eq_refl eq_refl
           eq_refl (ex_intro _ tt eq_refl) demo_getLastEligibility).
Defined.
